(** * seisplot: a shallow embedding of the numeric core of [seisplot.py]

    The script reads a SEG-Y section, assembles the amplitude matrix,
    derives page geometry from the density parameters [tpi] and [ips],
    and issues the wiggle, histogram and spectrum draw calls.

    Modelling conventions.
    - Finite floating-point values are idealised as exact rationals [Q];
      rounding is outside the model.  The non-finite results that numpy
      produces instead of raising (division by zero, logarithm of zero)
      are kept: see [npfloat].
    - The script is read as Python 3: [/] is true division, and it raises
      [ZeroDivisionError] on Python numbers where numpy's division does not.
    - Python exceptions are values of [exn], threaded through [result].
    - A two-dimensional numpy array of shape [(nsamples, ntraces)] is the
      list of its columns, so [data[:, i]] is the [i]-th element.
    - The rendering surface (matplotlib) and the SEG-Y decoder (obspy) are
      external: draw calls are recorded with their arguments, trace records
      are taken as given.  Two library refusals that decide the outcome of a
      routine are kept: [hist] raises on a bin count below 1 and [fft] on
      an empty array. *)

From Stdlib Require Import List ZArith QArith Qround Qabs Qminmax Bool Lia Lqa.
From Stdlib Require Import Reals Qreals Lra.
From Stdlib Require Import Ascii Sorted.
Import ListNotations.

Local Open Scope Q_scope.

(** ** Python exceptions and fallible computations *)

Module Py.

Inductive exn : Type :=
| UnboundLocalError
| ZeroDivisionError
| ValueError
| OverflowError
| IndexError.

Inductive result (A : Type) : Type :=
| OK (a : A)
| Raise (e : exn).

Arguments OK {A} a.
Arguments Raise {A} e.

Definition bind {A B : Type} (c : result A) (k : A -> result B) : result B :=
  match c with
  | OK a => k a
  | Raise e => Raise e
  end.

(** Python's true division of two Python numbers. *)
Definition truediv (a b : Q) : result Q :=
  if Qeq_bool b 0 then Raise ZeroDivisionError else OK (a / b).

(** Python's builtin [max(a, b)]: the first argument unless the second is
    strictly greater. *)
Definition max (a b : Q) : Q :=
  if Qle_bool b a then a else b.

End Py.

Export Py.

Notation "'let*' x ':=' c 'in' k" := (bind c (fun x => k))
  (at level 10, x pattern, c at level 100, k at level 200).

(** ** The numpy operations the script uses *)

Module Np.

(** A [numpy.float64]: a finite value, an infinity or a NaN. *)
Inductive npfloat : Type :=
| Fin (q : Q)
| PInf
| NInf
| NaN.

(** Equality of float64 values, up to the representation of a rational. *)
Definition eqf (a b : npfloat) : Prop :=
  match a, b with
  | Fin x, Fin y => x == y
  | PInf, PInf | NInf, NInf | NaN, NaN => True
  | _, _ => False
  end.

(** numpy division never raises: it yields an infinity or NaN. *)
Definition div (a b : npfloat) : npfloat :=
  match a, b with
  | NaN, _ | _, NaN => NaN
  | Fin x, Fin y =>
      if Qeq_bool y 0 then
        (if Qeq_bool x 0 then NaN
         else if Qle_bool 0 x then PInf else NInf)
      else Fin (x / y)
  | Fin _, (PInf | NInf) => Fin 0
  | PInf, Fin y => if Qle_bool 0 y then PInf else NInf
  | NInf, Fin y => if Qle_bool 0 y then NInf else PInf
  | (PInf | NInf), (PInf | NInf) => NaN
  end.

Definition add (a b : npfloat) : npfloat :=
  match a, b with
  | NaN, _ | _, NaN => NaN
  | Fin x, Fin y => Fin (x + y)
  | PInf, NInf | NInf, PInf => NaN
  | PInf, _ | _, PInf => PInf
  | NInf, _ | _, NInf => NInf
  end.

Definition neg (a : npfloat) : npfloat :=
  match a with
  | Fin x => Fin (- x)
  | PInf => NInf
  | NInf => PInf
  | NaN => NaN
  end.

(** Truncation of a rational toward zero. *)
Definition trunc (x : Q) : Z := Z.quot (Qnum x) (Zpos (Qden x)).

(** Python's [int(x)] on a float64: truncation toward zero; the
    non-finite values raise. *)
Definition int (a : npfloat) : result Z :=
  match a with
  | Fin x => OK (trunc x)
  | PInf | NInf => Raise OverflowError
  | NaN => Raise ValueError
  end.

(** [np.ravel]: all entries of the matrix. *)
Definition ravel (data : list (list Q)) : list Q := concat data.

(** [np.amax] and [np.amin] of a flat array; empty input raises. *)
Definition amax (a : list Q) : result Q :=
  match a with
  | [] => Raise ValueError
  | x :: t => OK (fold_left (fun m y => if Qle_bool y m then m else y) t x)
  end.

Definition amin (a : list Q) : result Q :=
  match a with
  | [] => Raise ValueError
  | x :: t => OK (fold_left (fun m y => if Qle_bool m y then m else y) t x)
  end.

Fixpoint insert (x : Q) (l : list Q) : list Q :=
  match l with
  | [] => [x]
  | y :: t => if Qle_bool x y then x :: l else y :: insert x t
  end.

Definition sort (l : list Q) : list Q := fold_right insert [] l.

(** [np.percentile(a, q)] with the default linear interpolation: the value
    at the virtual index [(n - 1) * q / 100] of the sorted data.  A [q]
    outside [0, 100] raises.  The empty array is given NaN here; [main]
    never reaches a percentile with empty data. *)
Definition percentile (a : list Q) (q : Q) : result npfloat :=
  if negb (Qle_bool 0 q && Qle_bool q 100) then Raise ValueError
  else
    match sort a with
    | [] => OK NaN
    | (s0 :: _) as s =>
        let n := Z.of_nat (length s) in
        let idx := inject_Z (n - 1) * (q / 100) in
        let lo := Qfloor idx in
        let g := idx - inject_Z lo in
        let a_lo := nth (Z.to_nat lo) s s0 in
        let a_hi := nth (Z.to_nat (Z.min (lo + 1) (n - 1))) s s0 in
        OK (Fin (a_lo + (a_hi - a_lo) * g))
    end.

(** [l[::k]] for [k >= 1]: the elements at positions 0, k, 2k, ... *)
Fixpoint stride_aux {A : Type} (k fuel : nat) (l : list A) : list A :=
  match fuel, l with
  | S f, x :: t => x :: stride_aux k f (skipn (k - 1) t)
  | _, _ => []
  end.

(** [l[::step]] for any integer step: zero raises, a negative step walks
    the list from its end. *)
Definition slice_step {A : Type} (l : list A) (step : Z) : result (list A) :=
  if (step =? 0)%Z then Raise ValueError
  else if (0 <? step)%Z then OK (stride_aux (Z.to_nat step) (length l) l)
  else OK (stride_aux (Z.to_nat (- step)) (length l) (rev l)).

(** [np.arange(n)] for a length [n]. *)
Definition arange (n : nat) : list Z := map Z.of_nat (seq 0 n).

(** [np.arange(0, stop, step)]: ceil(stop/step) values 0, step, 2*step... *)
Definition arange_step (stop step : Q) : result (list Q) :=
  if Qeq_bool step 0 then Raise ZeroDivisionError
  else
    let len := Z.to_nat (Qceiling (stop / step)) in
    OK (map (fun i => inject_Z (Z.of_nat i) * step) (seq 0 len)).

(** [np.fft.fftfreq(n, d)]: the bins 0, 1, ..., (n-1)//2, -(n//2), ..., -1
    scaled by [1.0 / (n * d)], a Python division.  For [n = 0] the division
    has already raised, so [N = (n-1)//2 + 1] is computed for [n >= 1]. *)
Definition fftfreq (n : nat) (d : Q) : result (list Q) :=
  let* val := truediv 1 (inject_Z (Z.of_nat n) * d) in
  let N := ((n - 1) / 2 + 1)%nat in
  let p1 := map Z.of_nat (seq 0 N) in
  let p2 := map (fun i => (Z.of_nat i - Z.of_nat (n / 2))%Z) (seq 0 (n - N)) in
  OK (map (fun k => inject_Z k * val) (p1 ++ p2)).

End Np.

(** ** [wigplot] *)

(** The two draw calls of one loop iteration of [wigplot]:
    [ax.plot(line_x, line_y)] and
    [ax.fill_betweenx(fill_y, fill_x1, x2=fill_x2)]. *)
Record wiggle : Type := mkWiggle {
  line_x : list Np.npfloat;
  line_y : list Q;
  fill_y : list Q;
  fill_x1 : list Np.npfloat;
  fill_x2 : Z
}.

(** [gain * trace / sc + x] on one trace. *)
Definition normalized (gain : Q) (sc : Np.npfloat) (x : Z) (trace : list Q)
  : list Np.npfloat :=
  map (fun a => Np.add (Np.div (Np.Fin (gain * a)) sc) (Np.Fin (inject_Z x))) trace.

Definition wigplot (data : list (list Q)) (tbase : list Q) (ntraces : nat)
  (skip : Z) (perc : Q) (gain : Q) : result (list wiggle) :=
  let* sc := Np.percentile (Np.ravel data) perc in
  let* wigdata := Np.slice_step data skip in
  let* xpos := Np.slice_step (Np.arange ntraces) skip in
  OK (map (fun '(x, trace) =>
             mkWiggle (normalized gain sc x trace) tbase
                      tbase (normalized gain sc x trace) x)
          (combine xpos wigdata)).

(** The default [perc=98.0] of [wigplot]'s signature. *)
Definition wigplot_default_perc : Q := 98.

(** ** Clip value *)

(** [np.percentile(data, 99.0)], as computed at line 201 of [main] and
    again at line 149 of [plot_histogram]. *)
Definition clip_value (data : list (list Q)) : result Np.npfloat :=
  Np.percentile (Np.ravel data) 99.

(** ** [plot_histogram] *)

(** Line 148: [max(np.amax(data), abs(np.amin(data)))]. *)
Definition largest (data : list (list Q)) : result Q :=
  let* ma := Np.amax (Np.ravel data) in
  let* mi := Np.amin (Np.ravel data) in
  OK (Py.max ma (Qabs mi)).

(** The arguments of [hist_ax.hist] and [hist_ax.set_xlim]. *)
Record histogram : Type := mkHistogram {
  hist_x : list Q;
  bins : Z;
  xlim : Np.npfloat * Np.npfloat
}.

(** Lines 148-153, with the float64 division taken as a parameter: the
    bin count is [int] of a float quotient and so depends on how the
    division rounds.  [hist] refuses a bin count below 1 with [ValueError],
    before [set_xlim] is reached. *)
Definition plot_histogram_with
  (fdiv : Np.npfloat -> Np.npfloat -> Np.npfloat) (data : list (list Q))
  : result histogram :=
  let* largest := largest data in
  let* clip_val := clip_value data in
  let* bins := Np.int (fdiv (Np.Fin 100) (fdiv clip_val (Np.Fin largest))) in
  if (bins <? 1)%Z then Raise ValueError
  else OK (mkHistogram (Np.ravel data) bins (Np.neg clip_val, clip_val)).

(** [plot_histogram] under the exact division of the rational model. *)
Definition plot_histogram (data : list (list Q)) : result histogram :=
  plot_histogram_with Np.div data.

(** The bin count in the words of the specification, for comparison with
    [bins]: [round(100.0 / (clip_val / largest))], clamped to a minimum of
    1.  [round] is Python's, to the nearest integer and to the even one at
    a tie. *)
Definition round_half_even (x : Q) : Z :=
  let f := Qfloor x in
  let r := x - inject_Z f in
  match Qcompare r (1 # 2) with
  | Lt => f
  | Gt => (f + 1)%Z
  | Eq => if Z.even f then f else (f + 1)%Z
  end.

Definition spec_bin_count (clip_val largest : Q) : Z :=
  Z.max 1 (round_half_even (100 / (clip_val / largest))).

(** ** [plot_spectrum] *)

Module Spectrum.

Local Open Scope R_scope.

(** The value of [np.log10] on a non-negative magnitude: a real number, or
    minus infinity at zero (numpy warns and does not raise). *)
Inductive nplog : Type :=
| LogFin (r : R)
| LogNInf.

Definition log10 (x : R) : nplog :=
  if Req_dec_T x 0 then LogNInf else LogFin (ln x / ln 10).

Definition rsum (l : list R) : R := fold_right Rplus 0 l.

(** Real and imaginary part of bin [k] of the discrete Fourier transform
    of [x], which the script imports as [fft] from [scipy]:
    sum_j x_j * exp(-2 pi i j k / n). *)
Definition dft_re (x : list R) (k : nat) : R :=
  rsum (map (fun '(j, xj) => xj * cos (2 * PI * INR j * INR k / INR (length x)))
            (combine (seq 0 (length x)) x)).

Definition dft_im (x : list R) (k : nat) : R :=
  rsum (map (fun '(j, xj) => - (xj * sin (2 * PI * INR j * INR k / INR (length x))))
            (combine (seq 0 (length x)) x)).

(** The magnitudes of all bins of the transform of [x]. *)
Definition fft_abs (x : list R) : list R :=
  map (fun k => sqrt (dft_re x k * dft_re x k + dft_im x k * dft_im x k))
      (seq 0 (length x)).

(** [abs(fft(x))]: [fft] refuses an empty array with [ValueError]. *)
Definition abs_fft (x : list R) : result (list R) :=
  match x with
  | [] => Raise ValueError
  | _ :: _ => OK (fft_abs x)
  end.

End Spectrum.

(** [data[:, 1]]: the second column; raises when there is none. *)
Definition column1 (data : list (list Q)) : result (list Q) :=
  match data with
  | _ :: c :: _ => OK c
  | _ => Raise IndexError
  end.

(** The arguments of [spec_ax.plot]. *)
Record spectrum : Type := mkSpectrum {
  spec_x : list Q;
  spec_y : list Spectrum.nplog
}.

Definition plot_spectrum (data : list (list Q)) (dt : Q) : result spectrum :=
  let* trace := column1 data in
  let* Sabs := Spectrum.abs_fft (map Q2R trace) in
  let* faxis := Np.fftfreq (length trace) (dt / 10 ^ 6) in
  OK (mkSpectrum (firstn (length faxis / 4) faxis)
                 (map Spectrum.log10 (firstn (length faxis / 4) Sabs))).

(** ** [main]: ingestion *)

(** The trace-header fields [main] reads, and a trace of the section. *)
Record trace_header : Type := mkHeader {
  number_of_samples_in_this_trace : nat;
  sample_interval_in_ms_for_this_trace : Q;
  receiver_group_elevation : Z;
  energy_source_point_number : Z;
  ensemble_number : Z;
  trace_sequence_number_within_line : Z
}.

Record trace : Type := mkTrace {
  header : trace_header;
  trace_data : list Q
}.

(** The options of the YAML configuration that [main] reads. *)
Record config : Type := mkConfig {
  tpi : Q;
  ips : Q;
  skip : Z;
  gain : Q;
  fontsize : Q
}.

(** The local variables set by the header loop (lines 179-186).  [nsamples]
    and [dt] are unbound until the first iteration has run. *)
Record header_scan : Type := mkScan {
  nsamples : option nat;
  dt : option Q;
  elev : list Z;
  esp : list Z;
  ens : list Z;
  tsq : list Z
}.

Definition scan_step (st : header_scan) (tr : trace) : header_scan :=
  mkScan (Some (number_of_samples_in_this_trace (header tr)))
         (Some (sample_interval_in_ms_for_this_trace (header tr)))
         (elev st ++ [receiver_group_elevation (header tr)])
         (esp st ++ [energy_source_point_number (header tr)])
         (ens st ++ [ensemble_number (header tr)])
         (tsq st ++ [trace_sequence_number_within_line (header tr)]).

Definition scan_headers (traces : list trace) : header_scan :=
  fold_left scan_step traces (mkScan None None [] [] [] []).

(** Line 189: [0.001 * np.arange(0, nsamples * dt, dt)]. *)
Definition time_base (st : header_scan) : result (list Q) :=
  match nsamples st, dt st with
  | Some n, Some d =>
      let* a := Np.arange_step (inject_Z (Z.of_nat n) * d) d in
      OK (map (fun t => (1 # 1000) * t) a)
  | _, _ => Raise UnboundLocalError
  end.

(** Line 199: [data[:, i] = trace.data] into a column of [n] rows.  A
    one-element array is broadcast; any other length mismatch raises. *)
Definition assign_column (n : nat) (d : list Q) : result (list Q) :=
  if (length d =? n)%nat then OK d
  else match d with
       | [x] => OK (repeat x n)
       | _ => Raise ValueError
       end.

(** Lines 197-199: the data container, column by column. *)
Fixpoint build_data (n : nat) (traces : list trace) : result (list (list Q)) :=
  match traces with
  | [] => OK []
  | tr :: rest =>
      let* c := assign_column n (trace_data tr) in
      let* cs := build_data n rest in
      OK (c :: cs)
  end.

(** What ingestion hands to the rest of [main]. *)
Record ingested : Type := mkIngested {
  in_data : list (list Q);
  in_tbase : list Q;
  in_ntraces : nat;
  in_nsamples : nat;
  in_dt : Q
}.

(** Lines 177-199 without the size computation of lines 193-195. *)
Definition ingest (traces : list trace) : result ingested :=
  let st := scan_headers traces in
  let ntraces := length traces in
  let* tbase := time_base st in
  let* tend := Np.amax tbase in
  match nsamples st, dt st with
  | Some n, Some d =>
      let* data := build_data n traces in
      OK (mkIngested data tbase ntraces n d)
  | _, _ => Raise UnboundLocalError
  end.

(** ** [main]: page geometry *)

(** [np.amax(tbase) - np.amin(tbase)]. *)
Definition duration (tbase : list Q) : result Q :=
  let* ma := Np.amax tbase in
  let* mi := Np.amin tbase in
  OK (ma - mi).

Record seismic_size : Type := mkSize {
  wsd : Q;
  hd : Q;
  aspect : Np.npfloat
}.

(** Lines 193-195. *)
Definition seismic_dims (ntraces : nat) (tbase : list Q) (cfg : config)
  : result seismic_size :=
  let* wsd := truediv (inject_Z (Z.of_nat ntraces)) (tpi cfg) in
  let* dur := duration tbase in
  let hd := ips cfg * dur / 1000 in
  OK (mkSize wsd hd (Np.div (Np.Fin wsd) (Np.Fin hd))).

(** The plot size constants of lines 224-235. *)
Definition wsl : Q := 6.
Definition mih : Q := 10.
Definition fhh : Q := 5.
Definition m : Q := 1 # 2.
Definition mt : Q := m.
Definition mb : Q := m.
Definition ml : Q := 2 * m.
Definition mr : Q := 2 * m.
Definition mm : Q := mr / 2.

Record page : Type := mkPage {
  w : Q;
  h : Q;
  ssl : Q
}.

(** Lines 238-242. *)
Definition page_dims (wsd : Q) (tbase : list Q) (cfg : config) : result page :=
  let w := ml + wsd + wsl + mr + mm in
  let* dur := duration tbase in
  let h := Py.max mih (ips cfg * dur / 1000 + mt + mb) in
  let* ssl := truediv (ml + wsd + mm) w in
  OK (mkPage w h ssl).

(** An axes rectangle [x, y, width, height] in figure fractions. *)
Record rect : Type := mkRect {
  rx : Q;
  ry : Q;
  rw : Q;
  rh : Q
}.

Record axes : Type := mkAxes {
  ax : rect;
  title_ax : rect;
  head_ax : rect;
  hist_ax : rect;
  spec_ax : rect
}.

(** The [fig.add_axes] rectangles of lines 249, 297, 302-303, 312-316 and
    320.  Here [w] is non-zero ([ssl] has been computed) and [h >= mih]. *)
Definition add_axes (wsd : Q) (p : page) : axes :=
  let w := w p in
  let h := h p in
  let ssl := ssl p in
  let start := (h - mt - fhh) / h in
  let pad := 5 # 100 in
  let charty := 125 # 1000 in
  let xhist := ssl + pad in
  let whist := (1 - ssl - (ml / w)) - 2 * pad in
  mkAxes (mkRect (ml / w) (mb / h) (wsd / w) ((h - mb - mt) / h))
         (mkRect ssl (1 - mt / h) (wsl / w) (mt / (2 * h)))
         (mkRect ssl start (wsl / w) (fhh / h))
         (mkRect xhist ((15 # 10) * mb / h + charty + pad) whist charty)
         (mkRect xhist ((15 # 10) * mb / h) whist charty).

Record geometry : Type := mkGeometry {
  size : seismic_size;
  figsize : page;
  panels : axes
}.

(** The layout computation: the geometry lines of [main] in their order. *)
Definition layout (ntraces : nat) (tbase : list Q) (cfg : config)
  : result geometry :=
  let* sz := seismic_dims ntraces tbase cfg in
  let* pg := page_dims (wsd sz) tbase cfg in
  OK (mkGeometry sz pg (add_axes (wsd sz) pg)).

(** ** [main] *)

Record run : Type := mkRun {
  run_ntraces : nat;
  run_nsamples : nat;
  run_dt : Q;
  run_tbase : list Q;
  run_tend : Q;
  run_data : list (list Q);
  clip_val : Np.npfloat;
  run_geometry : geometry;
  run_wiggles : list wiggle;
  run_histogram : histogram;
  run_spectrum : spectrum
}.

Definition main (traces : list trace) (cfg : config) : result run :=
  let st := scan_headers traces in
  let ntraces := length traces in
  let* tbase := time_base st in
  let* tend := Np.amax tbase in
  let* sz := seismic_dims ntraces tbase cfg in
  match nsamples st, dt st with
  | Some n, Some d =>
      let* data := build_data n traces in
      let* clip_val := clip_value data in
      let* pg := page_dims (wsd sz) tbase cfg in
      let panels := add_axes (wsd sz) pg in
      let* wig := wigplot data tbase ntraces (skip cfg) wigplot_default_perc (gain cfg) in
      let* hist := plot_histogram data in
      let* spec := plot_spectrum data d in
      OK (mkRun ntraces n d tbase tend data clip_val
                (mkGeometry sz pg panels) wig hist spec)
  | _, _ => Raise UnboundLocalError
  end.

(** ** [plot_header] *)

(** [s[i:j]] on a sequence, for [0 <= i]: out-of-range bounds are clipped. *)
Definition py_slice {A : Type} (s : list A) (i j : nat) : list A :=
  firstn (j - i) (skipn i s).

(** [range(0, stop, step)] for a positive step. *)
Definition range_step (stop step : nat) : list nat :=
  map (fun k => (k * step)%nat) (seq 0 ((stop + step - 1) / step)).

(** Lines 117-119: the header cut into card images of 80 characters. *)
Definition eblist (s : list ascii) : list (list ascii) :=
  map (fun i => py_slice s i (i + 80)) (range_step 3200 80).

(** The arguments of one [head_ax.text] call. *)
Record text_call : Type := mkText {
  text_x : Q;
  text_y : Q;
  text_s : list ascii
}.

(** Lines 121-124: one text per card image, without its first four
    characters, going down from the top of the [0, 40] axis. *)
Definition plot_header (s : list ascii) : list text_call :=
  let buff := 1 in
  map (fun '(i, line) =>
         mkText buff (40 - inject_Z (Z.of_nat i) * (95 # 100) - buff) (skipn 4 line))
      (combine (seq 0 (length (eblist s))) (eblist s)).

(** ** Sample inputs *)

(** Ten traces of three samples each. *)
Definition ten_traces : list (list Q) :=
  map (fun i => [inject_Z (Z.of_nat i); 1; 2]) (seq 1 10).

(** Two traces of four samples whose 98th and 99th percentiles differ. *)
Definition two_traces : list trace :=
  [mkTrace (mkHeader 4 1000 0 0 1 1) [0; 1; 2; 3];
   mkTrace (mkHeader 4 1000 0 0 2 2) [4; 5; 6; 100]].

Definition sample_config : config := mkConfig 10 2 1 1 10.

(** A trace with the given header sample count and interval. *)
Definition sample_trace (n : nat) (d : Q) (samples : list Q) : trace :=
  mkTrace (mkHeader n d 0 0 0 0) samples.

(** Two columns of 101 samples, all zero but the last one. *)
Definition sparse_data : list (list Q) :=
  [repeat 0 101; repeat 0 100 ++ [5]].

(** * Properties *)

(** Linear arithmetic over the rationals and over the reals. *)
Ltac qlra := Lqa.lra.
Ltac qnra := Lqa.nra.
Ltac rlra := Lra.lra.

(** ** Fallible computations *)

Lemma bind_OK {A B : Type} (c : result A) (k : A -> result B) (b : B) :
  bind c k = OK b -> exists a, c = OK a /\ k a = OK b.
Proof.
  destruct c as [a|e]; simpl; intros H; [eauto | discriminate].
Qed.

Lemma Qeq_bool_false (x y : Q) : ~ x == y -> Qeq_bool x y = false.
Proof.
  intros H. destruct (Qeq_bool x y) eqn:E; [|reflexivity].
  apply Qeq_bool_iff in E. contradiction.
Qed.

Lemma Qeq_bool_true (x y : Q) : x == y -> Qeq_bool x y = true.
Proof. apply Qeq_bool_iff. Qed.

Lemma Qle_bool_false (x y : Q) : Qle_bool x y = false -> y < x.
Proof.
  intros H. apply Qnot_le_lt. intros L. apply Qle_bool_iff in L. congruence.
Qed.

Lemma truediv_OK (a b : Q) : ~ b == 0 -> truediv a b = OK (a / b).
Proof. intros H. unfold truediv. now rewrite Qeq_bool_false. Qed.

Lemma truediv_zero (a b : Q) : b == 0 -> truediv a b = Raise ZeroDivisionError.
Proof. intros H. unfold truediv. now rewrite Qeq_bool_true. Qed.

(** ** Strided slices *)

Lemma ceil_div_succ (m k : nat) :
  (1 <= k)%nat ->
  ((S m + k - 1) / k = S ((m - (k - 1) + k - 1) / k))%nat.
Proof.
  intros Hk.
  destruct (Nat.le_gt_cases (k - 1) m) as [Hc|Hc].
  - replace (S m + k - 1)%nat with ((m - (k - 1) + k - 1) + 1 * k)%nat by lia.
    rewrite Nat.div_add by lia. lia.
  - replace (m - (k - 1) + k - 1)%nat with (k - 1)%nat by lia.
    replace (S m + k - 1)%nat with (m + 1 * k)%nat by lia.
    rewrite Nat.div_add by lia.
    rewrite !Nat.div_small by lia. reflexivity.
Qed.

Section Stride.

Context {A : Type}.

Lemma stride_aux_length (k : nat) :
  (1 <= k)%nat ->
  forall (fuel : nat) (l : list A),
    (length l <= fuel)%nat ->
    length (Np.stride_aux k fuel l) = ((length l + k - 1) / k)%nat.
Proof.
  intros Hk. induction fuel as [|f IH]; intros l Hl.
  - destruct l; cbn [length] in *; [|lia].
    symmetry. apply Nat.div_small. lia.
  - destruct l as [|x t]; cbn [Np.stride_aux length] in *.
    + symmetry. apply Nat.div_small. lia.
    + rewrite IH by (rewrite length_skipn; lia).
      rewrite length_skipn. symmetry. apply ceil_div_succ. exact Hk.
Qed.

Lemma stride_aux_nth (k : nat) (d : A) :
  (1 <= k)%nat ->
  forall (fuel : nat) (l : list A) (j : nat),
    (length l <= fuel)%nat ->
    (j * k < length l)%nat ->
    nth j (Np.stride_aux k fuel l) d = nth (j * k) l d.
Proof.
  intros Hk. induction fuel as [|f IH]; intros l j Hl Hj.
  - destruct l; simpl in *; lia.
  - destruct l as [|x t]; simpl in *; [lia|].
    destruct j as [|j]; simpl; [reflexivity|].
    rewrite IH.
    + rewrite nth_skipn.
      replace (k + j * k)%nat with (S (k - 1 + j * k)) by lia.
      reflexivity.
    + rewrite length_skipn. lia.
    + rewrite length_skipn. lia.
Qed.

End Stride.

Lemma div_ceil_bound (n k j : nat) :
  (1 <= k)%nat -> (j < (n + k - 1) / k)%nat -> (j * k < n)%nat.
Proof.
  intros Hk Hj.
  assert (H : (S j <= (n + k - 1) / k)%nat) by lia.
  assert (H2 : (k * S j <= n + k - 1)%nat).
  { transitivity (k * ((n + k - 1) / k))%nat.
    - apply Nat.mul_le_mono_l. exact H.
    - apply Nat.Div0.mul_div_le. }
  nia.
Qed.

(** [l[::k]] lists the elements of [l] at positions 0, k, 2k, ... *)
Lemma stride_as_map {A : Type} (d : A) (l : list A) (k : nat) :
  (1 <= k)%nat ->
  Np.stride_aux k (length l) l
  = map (fun j => nth (j * k) l d) (seq 0 ((length l + k - 1) / k)).
Proof.
  intros Hk.
  apply (nth_ext _ _ d (nth (0 * k) l d)).
  - rewrite stride_aux_length, length_map, length_seq by lia. reflexivity.
  - intros j Hj.
    rewrite stride_aux_length in Hj by lia.
    pose proof (div_ceil_bound (length l) k j Hk Hj) as Hb.
    rewrite stride_aux_nth by lia.
    rewrite (map_nth (fun j => nth (j * k) l d)).
    rewrite seq_nth by lia. reflexivity.
Qed.

Lemma arange_length (n : nat) : length (Np.arange n) = n.
Proof. unfold Np.arange. now rewrite length_map, length_seq. Qed.

Lemma arange_nth (n i : nat) :
  (i < n)%nat -> nth i (Np.arange n) 0%Z = Z.of_nat i.
Proof.
  intros Hi. unfold Np.arange.
  change 0%Z with (Z.of_nat 0). rewrite map_nth, seq_nth by lia. reflexivity.
Qed.

(** [np.arange(n)[::k]] is 0, k, 2k, ... below [n]. *)
Lemma stride_arange (n k : nat) :
  (1 <= k)%nat ->
  Np.stride_aux k (length (Np.arange n)) (Np.arange n)
  = map (fun j => Z.of_nat (j * k)) (seq 0 ((n + k - 1) / k)).
Proof.
  intros Hk. rewrite (stride_as_map 0%Z) by exact Hk.
  rewrite arange_length. apply map_ext_in.
  intros j Hj. apply in_seq in Hj.
  apply arange_nth. apply div_ceil_bound with (k := k); lia.
Qed.

Lemma combine_map_same {A B C : Type} (f : A -> B) (g : A -> C) (l : list A) :
  combine (map f l) (map g l) = map (fun a => (f a, g a)) l.
Proof. induction l as [|a l IH]; simpl; [reflexivity | now rewrite IH]. Qed.


Lemma insert_Forall (P : Q -> Prop) (x : Q) (l : list Q) :
  P x -> Forall P l -> Forall P (Np.insert x l).
Proof.
  intros Hx Hl. induction Hl as [|y t Hy Ht IH]; simpl.
  - auto.
  - destruct (Qle_bool x y); auto.
Qed.

Lemma sort_Forall (P : Q -> Prop) (l : list Q) :
  Forall P l -> Forall P (Np.sort l).
Proof.
  intros Hl. induction Hl as [|y t Hy Ht IH]; simpl.
  - constructor.
  - apply insert_Forall; assumption.
Qed.

Lemma insert_length (x : Q) (l : list Q) :
  length (Np.insert x l) = S (length l).
Proof.
  induction l as [|y t IH]; simpl; [reflexivity|].
  destruct (Qle_bool x y); simpl; [reflexivity | now rewrite IH].
Qed.

Lemma sort_length (l : list Q) : length (Np.sort l) = length l.
Proof.
  induction l as [|y t IH]; simpl; [reflexivity|].
  now rewrite insert_length, IH.
Qed.

Lemma Forall_nth_in {A : Type} (P : A -> Prop) (l : list A) (i : nat) (d : A) :
  Forall P l -> (i < length l)%nat -> P (nth i l d).
Proof.
  intros Hl Hi. rewrite Forall_forall in Hl. apply Hl. now apply nth_In.
Qed.

(** Linear interpolation stays between its end points. *)
Lemma lerp_bounds (lo hi x y g : Q) :
  lo <= x -> x <= hi -> lo <= y -> y <= hi -> 0 <= g -> g <= 1 ->
  lo <= x + (y - x) * g /\ x + (y - x) * g <= hi.
Proof.
  intros Hx0 Hx1 Hy0 Hy1 Hg0 Hg1.
  assert (A1 : 0 <= (1 - g) * (x - lo)) by (apply Qmult_le_0_compat; qlra).
  assert (A2 : 0 <= g * (y - lo)) by (apply Qmult_le_0_compat; qlra).
  assert (A3 : 0 <= (1 - g) * (hi - x)) by (apply Qmult_le_0_compat; qlra).
  assert (A4 : 0 <= g * (hi - y)) by (apply Qmult_le_0_compat; qlra).
  split; qlra.
Qed.

(** A percentile of a non-empty array is finite and lies within any bounds
    that hold for all its entries. *)
Lemma percentile_bounds (a : list Q) (q lo hi : Q) :
  a <> [] -> 0 <= q -> q <= 100 ->
  Forall (fun x => lo <= x /\ x <= hi) a ->
  exists c, Np.percentile a q = OK (Np.Fin c) /\ lo <= c /\ c <= hi.
Proof.
  intros Hne H0 H1 Hall. unfold Np.percentile.
  pose proof H0 as B0. pose proof H1 as B1.
  apply Qle_bool_iff in B0. apply Qle_bool_iff in B1. rewrite B0, B1.
  cbn [negb andb].
  pose proof (sort_length a) as Hlen.
  apply sort_Forall in Hall.
  destruct (Np.sort a) as [|s0 s] eqn:Es.
  - destruct a; [congruence | simpl in Hlen; discriminate].
  - cbv beta iota zeta. set (l := s0 :: s) in *.
    set (n := Z.of_nat (length l)).
    assert (Hn : (1 <= n)%Z) by (unfold n, l; simpl; lia).
    set (idx := inject_Z (n - 1) * (q / 100)).
    assert (Hi0 : 0 <= idx).
    { unfold idx. apply Qmult_le_0_compat.
      - change 0 with (inject_Z 0). rewrite <- Zle_Qle. lia.
      - apply Qle_shift_div_l; [reflexivity | qlra]. }
    assert (Hi1 : idx <= inject_Z (n - 1)).
    { unfold idx.
      assert (Hq : q / 100 <= 1) by (apply Qle_shift_div_r; [reflexivity | qlra]).
      assert (Hz : 0 <= inject_Z (n - 1))
        by (change 0 with (inject_Z 0); rewrite <- Zle_Qle; lia).
      qnra. }
    assert (Hf0 : (0 <= Qfloor idx)%Z).
    { change 0%Z with (Qfloor (inject_Z 0)). apply Qfloor_resp_le. exact Hi0. }
    assert (Hf1 : (Qfloor idx <= n - 1)%Z).
    { rewrite <- (Qfloor_Z (n - 1)). apply Qfloor_resp_le. exact Hi1. }
    pose proof (Qfloor_le idx) as Hg0.
    pose proof (Qlt_floor idx) as Hg1.
    rewrite inject_Z_plus in Hg1.
    assert (Ha : (Z.to_nat (Qfloor idx) < length l)%nat) by (unfold n in Hf1; lia).
    assert (Hb : (Z.to_nat (Z.min (Qfloor idx + 1) (n - 1)) < length l)%nat)
      by (unfold n in *; lia).
    destruct (Forall_nth_in _ l _ s0 Hall Ha) as [Ha0 Ha1].
    destruct (Forall_nth_in _ l _ s0 Hall Hb) as [Hb0 Hb1].
    eexists. split; [reflexivity|].
    apply lerp_bounds; try assumption.
    + qlra.
    + change (inject_Z 1) with 1 in Hg1. qlra.
Qed.

(** ** Extremes *)

Lemma fold_max_spec (t : list Q) (x : Q) :
  let r := fold_left (fun m y => if Qle_bool y m then m else y) t x in
  x <= r /\ Forall (fun y => y <= r) t /\ (r = x \/ In r t).
Proof.
  revert x. induction t as [|y t IH]; intros x; cbn [fold_left].
  - split; [apply Qle_refl|]. split; [constructor | now left].
  - destruct (IH (if Qle_bool y x then x else y)) as [I1 [I2 I3]].
    destruct (Qle_bool y x) eqn:E.
    + apply Qle_bool_iff in E.
      split; [exact I1|]. split.
      * constructor; [eapply Qle_trans; eassumption | exact I2].
      * destruct I3 as [I3|I3]; [now left | right; now right].
    + apply Qle_bool_false in E.
      split; [eapply Qle_trans; [apply Qlt_le_weak; exact E | exact I1]|]. split.
      * constructor; [exact I1 | exact I2].
      * destruct I3 as [I3|I3]; [right; left; now symmetry | right; now right].
Qed.

Lemma fold_min_spec (t : list Q) (x : Q) :
  let r := fold_left (fun m y => if Qle_bool m y then m else y) t x in
  r <= x /\ Forall (fun y => r <= y) t /\ (r = x \/ In r t).
Proof.
  revert x. induction t as [|y t IH]; intros x; cbn [fold_left].
  - split; [apply Qle_refl|]. split; [constructor | now left].
  - destruct (IH (if Qle_bool x y then x else y)) as [I1 [I2 I3]].
    destruct (Qle_bool x y) eqn:E.
    + apply Qle_bool_iff in E.
      split; [exact I1|]. split.
      * constructor; [eapply Qle_trans; eassumption | exact I2].
      * destruct I3 as [I3|I3]; [now left | right; now right].
    + apply Qle_bool_false in E.
      split; [eapply Qle_trans; [exact I1 | apply Qlt_le_weak; exact E]|]. split.
      * constructor; [exact I1 | exact I2].
      * destruct I3 as [I3|I3]; [right; left; now symmetry | right; now right].
Qed.

Lemma amax_spec (a : list Q) (ma : Q) :
  Np.amax a = OK ma -> Forall (fun y => y <= ma) a /\ In ma a.
Proof.
  destruct a as [|x t]; cbn [Np.amax]; intros H; [discriminate|].
  injection H as <-.
  destruct (fold_max_spec t x) as [I1 [I2 I3]]. split.
  - constructor; assumption.
  - destruct I3 as [I3|I3]; [left; now symmetry | now right].
Qed.

Lemma amin_spec (a : list Q) (mi : Q) :
  Np.amin a = OK mi -> Forall (fun y => mi <= y) a /\ In mi a.
Proof.
  destruct a as [|x t]; cbn [Np.amin]; intros H; [discriminate|].
  injection H as <-.
  destruct (fold_min_spec t x) as [I1 [I2 I3]]. split.
  - constructor; assumption.
  - destruct I3 as [I3|I3]; [left; now symmetry | now right].
Qed.

Lemma amax_nonempty (a : list Q) : a <> [] -> exists ma, Np.amax a = OK ma.
Proof. destruct a; [congruence | intros _; cbn; eauto]. Qed.

Lemma amin_nonempty (a : list Q) : a <> [] -> exists mi, Np.amin a = OK mi.
Proof. destruct a; [congruence | intros _; cbn; eauto]. Qed.

Lemma Forall_and_both {A : Type} (P R : A -> Prop) (l : list A) :
  Forall P l -> Forall R l -> Forall (fun x => P x /\ R x) l.
Proof.
  intros HP HR. induction HP; inversion HR; subst; constructor; auto.
Qed.

(** A percentile of a non-empty array is a finite value. *)
Lemma percentile_finite (a : list Q) (q : Q) :
  a <> [] -> 0 <= q -> q <= 100 ->
  exists c, Np.percentile a q = OK (Np.Fin c).
Proof.
  intros Hne H0 H1.
  destruct (amax_nonempty _ Hne) as [ma Hma].
  destruct (amin_nonempty _ Hne) as [mi Hmi].
  destruct (amax_spec _ _ Hma) as [Hle _].
  destruct (amin_spec _ _ Hmi) as [Hge _].
  destruct (percentile_bounds a q mi ma Hne H0 H1) as [c [Hc _]].
  - apply Forall_and_both; assumption.
  - exists c. exact Hc.
Qed.

(** ** Clip value *)

(** The clip value of a non-empty matrix is finite and lies between the
    least and the greatest amplitude. *)
Lemma clip_value_between (data : list (list Q)) :
  Np.ravel data <> [] ->
  exists c ma mi,
    clip_value data = OK (Np.Fin c) /\
    Np.amax (Np.ravel data) = OK ma /\
    Np.amin (Np.ravel data) = OK mi /\
    mi <= c /\ c <= ma.
Proof.
  intros Hne.
  destruct (amax_nonempty _ Hne) as [ma Hma].
  destruct (amin_nonempty _ Hne) as [mi Hmi].
  destruct (amax_spec _ _ Hma) as [Hle _].
  destruct (amin_spec _ _ Hmi) as [Hge _].
  destruct (percentile_bounds (Np.ravel data) 99 mi ma Hne) as [c [Hc [B0 B1]]].
  - discriminate.
  - discriminate.
  - apply Forall_and_both; assumption.
  - exists c, ma, mi. auto.
Qed.

(** C2, amended.  For every non-empty amplitude matrix the clip value is
    the 99th percentile (a constant of the code) of the signed entries of
    the flattened matrix: it lies between the least and the greatest entry,
    and it is negative when every entry is negative. *)
Theorem clip_value_signed (data : list (list Q)) :
  Np.ravel data <> [] ->
  exists c ma mi,
    clip_value data = Np.percentile (Np.ravel data) 99 /\
    clip_value data = OK (Np.Fin c) /\
    Np.amax (Np.ravel data) = OK ma /\
    Np.amin (Np.ravel data) = OK mi /\
    mi <= c /\ c <= ma /\
    (Forall (fun x => x < 0) (Np.ravel data) -> c < 0).
Proof.
  intros Hne.
  destruct (clip_value_between data Hne) as [c [ma [mi [Hc [Hma [Hmi [B0 B1]]]]]]].
  exists c, ma, mi. repeat (split; [first [reflexivity | assumption]|]).
  intros Hneg.
  destruct (amax_spec _ _ Hma) as [_ Hin].
  rewrite Forall_forall in Hneg. specialize (Hneg ma Hin).
  eapply Qle_lt_trans; eassumption.
Qed.

Lemma clip_value_signed_witness :
  exists c ma mi,
    clip_value [[-3; -1]; [-2; -5]] = Np.percentile (Np.ravel [[-3; -1]; [-2; -5]]) 99 /\
    clip_value [[-3; -1]; [-2; -5]] = OK (Np.Fin c) /\
    Np.amax (Np.ravel [[-3; -1]; [-2; -5]]) = OK ma /\
    Np.amin (Np.ravel [[-3; -1]; [-2; -5]]) = OK mi /\
    mi <= c /\ c <= ma /\
    (Forall (fun x => x < 0) (Np.ravel [[-3; -1]; [-2; -5]]) -> c < 0).
Proof.
  apply (clip_value_signed [[-3; -1]; [-2; -5]]).
  simpl. discriminate.
Defined.

(** C2 as stated fails: on an all-negative matrix the clip value is
    negative and differs from the percentile of the absolute values. *)
Lemma clip_value_abs_counterexample :
  exists c a,
    clip_value [[-3; -1]; [-2; -5]] = OK (Np.Fin c) /\
    Np.percentile (map Qabs (Np.ravel [[-3; -1]; [-2; -5]])) 99 = OK (Np.Fin a) /\
    c < 0 /\ ~ c == a.
Proof.
  eexists. eexists. split; [vm_compute; reflexivity|].
  split; [vm_compute; reflexivity|].
  split; [reflexivity|]. intros H. vm_compute in H. discriminate.
Qed.

(** ** Wiggle traces *)

(** C1, amended.  On a non-empty matrix of [ntraces] columns, [wigplot]
    with a stride [skip >= 1] draws ceil(ntraces / skip) wiggles; the [j]-th
    one shows column [j * skip] and is drawn around the horizontal offset
    [j * skip], the original column index of the trace.  For 10 traces and
    [skip = 2] these are the 5 offsets 0, 2, 4, 6, 8. *)
Theorem wigplot_positions (data : list (list Q)) (tbase : list Q) (skip : Z)
  (perc gain : Q) :
  Np.ravel data <> [] ->
  (1 <= skip)%Z -> 0 <= perc -> perc <= 100 ->
  let k := Z.to_nat skip in
  let count := ((length data + k - 1) / k)%nat in
  exists c ws,
    let sc := Np.Fin c in
    Np.percentile (Np.ravel data) perc = OK sc /\
    wigplot data tbase (length data) skip perc gain = OK ws /\
    length ws = count /\
    map fill_x2 ws = map (fun j => (Z.of_nat j * skip)%Z) (seq 0 count) /\
    (forall j d, (j < count)%nat ->
       line_x (nth j ws d)
       = normalized gain sc (Z.of_nat j * skip) (nth (j * k) data [])) /\
    (length data = 10%nat -> skip = 2%Z ->
       map fill_x2 ws = [0; 2; 4; 6; 8]%Z).
Proof.
  intros Hne Hs Hp0 Hp1 k count.
  destruct (percentile_finite (Np.ravel data) perc Hne Hp0 Hp1) as [c Hsc].
  set (sc := Np.Fin c) in *.
  assert (Hk : (1 <= k)%nat) by (unfold k; lia).
  assert (Hjk : forall j, Z.of_nat (j * k) = (Z.of_nat j * skip)%Z).
  { intros j. unfold k. rewrite Nat2Z.inj_mul, Z2Nat.id by lia. reflexivity. }
  pose (mk := fun j : nat =>
    mkWiggle (normalized gain sc (Z.of_nat j * skip) (nth (j * k) data [])) tbase
             tbase (normalized gain sc (Z.of_nat j * skip) (nth (j * k) data []))
             (Z.of_nat j * skip)).
  assert (Hws : wigplot data tbase (length data) skip perc gain
                = OK (map mk (seq 0 count))).
  { unfold wigplot. rewrite Hsc. cbn [bind]. unfold Np.slice_step.
    replace (skip =? 0)%Z with false by (symmetry; apply Z.eqb_neq; lia).
    replace (0 <? skip)%Z with true by (symmetry; apply Z.ltb_lt; lia).
    cbn [bind]. fold k.
    rewrite stride_arange by exact Hk.
    rewrite (stride_as_map [] data k) by exact Hk. fold count.
    rewrite combine_map_same, map_map. f_equal.
    apply map_ext. intros j. unfold mk. rewrite Hjk. reflexivity. }
  assert (Hx : map fill_x2 (map mk (seq 0 count))
               = map (fun j => (Z.of_nat j * skip)%Z) (seq 0 count)).
  { rewrite map_map. reflexivity. }
  exists c, (map mk (seq 0 count)). cbv zeta. fold sc.
  split; [exact Hsc|]. split; [exact Hws|].
  split; [now rewrite length_map, length_seq|].
  split; [exact Hx|]. split.
  - intros j d Hj.
    rewrite (nth_indep _ d (mk 0%nat)) by (now rewrite length_map, length_seq).
    rewrite (map_nth mk), seq_nth by exact Hj. reflexivity.
  - intros H10 H2. rewrite Hx. unfold count, k. rewrite H10, H2. reflexivity.
Qed.

Lemma wigplot_positions_witness :
  exists c ws,
    let sc := Np.Fin c in
    Np.percentile (Np.ravel ten_traces) 98 = OK sc /\
    wigplot ten_traces [0; 1; 2] (length ten_traces) 2 98 1 = OK ws /\
    length ws = 5%nat /\
    map fill_x2 ws = map (fun j => (Z.of_nat j * 2)%Z) (seq 0 5) /\
    (forall j d, (j < 5)%nat ->
       line_x (nth j ws d)
       = normalized 1 sc (Z.of_nat j * 2) (nth (j * 2) ten_traces [])) /\
    (length ten_traces = 10%nat -> 2%Z = 2%Z ->
       map fill_x2 ws = [0; 2; 4; 6; 8]%Z).
Proof.
  apply (wigplot_positions ten_traces [0; 1; 2] 2 98 1).
  - vm_compute. discriminate.
  - lia.
  - vm_compute. discriminate.
  - vm_compute. discriminate.
Defined.

(** C1 as stated fails: with [skip = 2] on 10 traces the 5 wiggles sit at
    the original column indices 0, 2, 4, 6, 8 and not at 0, 1, 2, 3, 4. *)
Lemma wigplot_display_index_counterexample :
  exists ws,
    wigplot ten_traces [0; 1; 2] 10 2 98 1 = OK ws /\
    length ws = 5%nat /\
    map fill_x2 ws = [0; 2; 4; 6; 8]%Z /\
    map fill_x2 ws <> [0; 1; 2; 3; 4]%Z.
Proof.
  eexists. split; [vm_compute; reflexivity|].
  split; [reflexivity|]. split; [reflexivity|]. discriminate.
Qed.

(** ** Page geometry *)

Lemma py_max_l (a b : Q) : b <= a -> Py.max a b = a.
Proof. intros H. unfold Py.max. apply Qle_bool_iff in H. now rewrite H. Qed.

Lemma py_max_r (a b : Q) : a < b -> Py.max a b = b.
Proof.
  intros H. unfold Py.max. destruct (Qle_bool b a) eqn:E; [|reflexivity].
  apply Qle_bool_iff in E. qlra.
Qed.

Lemma py_max_Qmax (a b : Q) : Py.max a b == Qmax a b.
Proof.
  destruct (Qlt_le_dec a b) as [H|H].
  - rewrite py_max_r by exact H. symmetry. apply Q.max_r. qlra.
  - rewrite py_max_l by exact H. symmetry. apply Q.max_l. exact H.
Qed.

Lemma py_max_lower (a b : Q) : a <= Py.max a b.
Proof.
  destruct (Qlt_le_dec a b) as [H|H].
  - rewrite py_max_r by exact H. qlra.
  - rewrite py_max_l by exact H. qlra.
Qed.

(** The page width in terms of the seismic width. *)
Lemma page_width (x : Q) : ml + x + wsl + mr + mm == x + (17 # 2).
Proof. unfold ml, wsl, mr, mm, mr, m. field. Qed.

Lemma page_width_sum (x : Q) :
  ml + x + wsl + mr + mm == 1 + x + 6 + 1 + (1 # 2).
Proof. unfold ml, wsl, mr, mm, mr, m. field. Qed.

Lemma label_start_sum (x : Q) : ml + x + mm == 1 + x + (1 # 2).
Proof. unfold ml, mm, mr, m. field. Qed.

(** The layout in closed form, whenever no division faults. *)
Lemma layout_ok (ntraces : nat) (tbase : list Q) (cfg : config) (dur : Q) :
  duration tbase = OK dur ->
  ~ tpi cfg == 0 ->
  ~ inject_Z (Z.of_nat ntraces) / tpi cfg == - (17 # 2) ->
  let sw := inject_Z (Z.of_nat ntraces) / tpi cfg in
  let sh := ips cfg * dur / 1000 in
  let pw := ml + sw + wsl + mr + mm in
  let pg := mkPage pw (Py.max mih (sh + mt + mb)) ((ml + sw + mm) / pw) in
  layout ntraces tbase cfg
  = OK (mkGeometry (mkSize sw sh (Np.div (Np.Fin sw) (Np.Fin sh)))
                   pg (add_axes sw pg)).
Proof.
  intros Hd Ht Hw sw sh pw pg.
  unfold layout, seismic_dims, page_dims.
  rewrite (truediv_OK _ _ Ht). cbn [bind]. rewrite Hd. cbn [bind wsd].
  rewrite truediv_OK.
  - reflexivity.
  - rewrite page_width. intros E. apply Hw. qlra.
Qed.

Lemma positive_tpi_no_fault (ntraces : nat) (cfg : config) :
  0 < tpi cfg ->
  ~ tpi cfg == 0 /\ 0 <= inject_Z (Z.of_nat ntraces) / tpi cfg.
Proof.
  intros Ht. split; [qlra|].
  apply Qle_shift_div_l; [exact Ht|].
  rewrite Qmult_0_l. change 0 with (inject_Z 0). rewrite <- Zle_Qle. lia.
Qed.

(** C3.  For positive density parameters the layout computation returns
    seismic width = trace count / tpi, seismic height = ips * duration /
    1000, page height = max(10, height + 0.5 + 0.5), page width = 1 + width
    + 6 + 1 + 0.5 and side-label start = (1 + width + 0.5) / page width; 100
    traces over 2000 ms at tpi 10 and ips 2 give 10 by 4 inches. *)
Theorem layout_dimensions (ntraces : nat) (tbase : list Q) (cfg : config)
  (dur : Q) :
  duration tbase = OK dur -> 0 < tpi cfg -> 0 < ips cfg ->
  exists g,
    layout ntraces tbase cfg = OK g /\
    wsd (size g) == inject_Z (Z.of_nat ntraces) / tpi cfg /\
    hd (size g) == ips cfg * dur / 1000 /\
    h (figsize g) == Qmax 10 (hd (size g) + (1 # 2) + (1 # 2)) /\
    w (figsize g) == 1 + wsd (size g) + 6 + 1 + (1 # 2) /\
    ssl (figsize g) == (1 + wsd (size g) + (1 # 2)) / w (figsize g) /\
    (ntraces = 100%nat -> dur == 2000 -> tpi cfg == 10 -> ips cfg == 2 ->
       wsd (size g) == 10 /\ hd (size g) == 4).
Proof.
  intros Hd Ht Hi.
  destruct (positive_tpi_no_fault ntraces cfg Ht) as [Hz Hpos].
  set (sw := inject_Z (Z.of_nat ntraces) / tpi cfg) in *.
  eexists. split.
  - apply (layout_ok ntraces tbase cfg dur Hd Hz). fold sw. qlra.
  - fold sw. cbn [size figsize wsd hd w h ssl].
    split; [reflexivity|]. split; [reflexivity|].
    split; [apply py_max_Qmax|].
    split; [apply page_width_sum|].
    split.
    + apply Qdiv_comp; [apply label_start_sum | reflexivity].
    + intros Hn H1 H2 H3. unfold sw. subst ntraces. rewrite H1, H2, H3.
      split; reflexivity.
Qed.

Lemma layout_dimensions_witness :
  exists g,
    layout 100 [0; 2000] (mkConfig 10 2 1 1 10) = OK g /\
    wsd (size g) == inject_Z (Z.of_nat 100) / 10 /\
    hd (size g) == 2 * 2000 / 1000 /\
    h (figsize g) == Qmax 10 (hd (size g) + (1 # 2) + (1 # 2)) /\
    w (figsize g) == 1 + wsd (size g) + 6 + 1 + (1 # 2) /\
    ssl (figsize g) == (1 + wsd (size g) + (1 # 2)) / w (figsize g) /\
    (100%nat = 100%nat -> 2000 == 2000 -> 10 == 10 -> 2 == 2 ->
       wsd (size g) == 10 /\ hd (size g) == 4).
Proof.
  apply (layout_dimensions 100 [0; 2000] (mkConfig 10 2 1 1 10) 2000);
    reflexivity.
Defined.

(** C4, amended.  For positive density parameters the seismic panel is
    [wsd] inches wide.  While the page height is not clamped (height + top
    + bottom margin at least the 10 inch minimum) it is [hd] inches high
    and its physical aspect is [wsd / hd]; when the page height is clamped
    to the minimum the panel is 9 inches high and its aspect is [wsd / 9]. *)
Theorem seismic_panel_aspect (ntraces : nat) (tbase : list Q) (cfg : config)
  (dur : Q) :
  duration tbase = OK dur -> 0 < tpi cfg -> 0 < ips cfg ->
  exists g,
    layout ntraces tbase cfg = OK g /\
    let pw := rw (ax (panels g)) * w (figsize g) in
    let ph := rh (ax (panels g)) * h (figsize g) in
    pw == wsd (size g) /\
    (mih <= hd (size g) + mt + mb ->
       ph == hd (size g) /\ pw / ph == wsd (size g) / hd (size g)) /\
    (hd (size g) + mt + mb < mih ->
       ph == 9 /\ pw / ph == wsd (size g) / 9).
Proof.
  intros Hd Ht Hi.
  destruct (positive_tpi_no_fault ntraces cfg Ht) as [Hz Hpos].
  set (sw := inject_Z (Z.of_nat ntraces) / tpi cfg) in *.
  set (sh := ips cfg * dur / 1000).
  eexists. split.
  - apply (layout_ok ntraces tbase cfg dur Hd Hz). fold sw. qlra.
  - fold sw sh.
    cbn [size figsize panels wsd hd w h ssl add_axes ax rw rh].
    assert (Hw : ~ ml + sw + wsl + mr + mm == 0) by (rewrite page_width; qlra).
    pose proof (py_max_lower mih (sh + mt + mb)) as Hh.
    assert (Hh' : ~ Py.max mih (sh + mt + mb) == 0) by (unfold mih in *; qlra).
    assert (Ew : sw / (ml + sw + wsl + mr + mm) * (ml + sw + wsl + mr + mm) == sw)
      by (field; exact Hw).
    cbv zeta. split; [exact Ew|]. split.
    + intros Hc.
      assert (Eh : (Py.max mih (sh + mt + mb) - mb - mt) / Py.max mih (sh + mt + mb)
                   * Py.max mih (sh + mt + mb) == sh).
      { destruct (Qlt_le_dec mih (sh + mt + mb)) as [L|L].
        - rewrite py_max_r by exact L. field. unfold mih, mt, mb, m in *. qlra.
        - assert (E : sh + mt + mb == mih) by qlra.
          rewrite py_max_l by exact L. unfold mih, mt, mb, m in *. field_simplify; qlra. }
      split; [exact Eh|]. rewrite Ew, Eh. reflexivity.
    + intros Hc.
      assert (Eh : (Py.max mih (sh + mt + mb) - mb - mt) / Py.max mih (sh + mt + mb)
                   * Py.max mih (sh + mt + mb) == 9).
      { rewrite py_max_l by qlra. unfold mih, mt, mb, m. reflexivity. }
      split; [exact Eh|]. rewrite Ew, Eh. reflexivity.
Qed.

Lemma seismic_panel_aspect_witness :
  exists g,
    layout 100 [0; 5000] (mkConfig 10 2 1 1 10) = OK g /\
    let pw := rw (ax (panels g)) * w (figsize g) in
    let ph := rh (ax (panels g)) * h (figsize g) in
    pw == wsd (size g) /\
    (mih <= hd (size g) + mt + mb ->
       ph == hd (size g) /\ pw / ph == wsd (size g) / hd (size g)) /\
    (hd (size g) + mt + mb < mih ->
       ph == 9 /\ pw / ph == wsd (size g) / 9).
Proof.
  apply (seismic_panel_aspect 100 [0; 5000] (mkConfig 10 2 1 1 10) 5000);
    reflexivity.
Defined.

(** C4 as stated fails when the page height is clamped: 100 traces over
    2000 ms at tpi 10 and ips 2 make a 10 by 4 inch section, drawn in a
    panel of 10 by 9 inches. *)
Lemma seismic_panel_aspect_counterexample :
  exists g,
    layout 100 [0; 2000] (mkConfig 10 2 1 1 10) = OK g /\
    wsd (size g) / hd (size g) == 10 / 4 /\
    (rw (ax (panels g)) * w (figsize g)) / (rh (ax (panels g)) * h (figsize g))
      == 10 / 9 /\
    ~ (rw (ax (panels g)) * w (figsize g)) / (rh (ax (panels g)) * h (figsize g))
      == wsd (size g) / hd (size g).
Proof.
  eexists. split; [vm_compute; reflexivity|].
  split; [reflexivity|]. split; [reflexivity|].
  intros H. vm_compute in H. discriminate.
Qed.

(** C5, amended.  The layout computation has no guard of its own.  It
    faults exactly when a division by zero is met: when [tpi] is zero, or
    when the page width [ntraces / tpi + 8.5] is zero; the fault is Python's
    [ZeroDivisionError].  In particular it returns a layout for negative
    [tpi] otherwise and for any [ips], and never faults for positive
    density parameters. *)
Theorem layout_zero_division (ntraces : nat) (tbase : list Q) (cfg : config)
  (dur : Q) :
  duration tbase = OK dur ->
  let degenerate :=
    tpi cfg == 0 \/ inject_Z (Z.of_nat ntraces) / tpi cfg == - (17 # 2) in
  (degenerate -> layout ntraces tbase cfg = Raise ZeroDivisionError) /\
  (~ degenerate -> exists g, layout ntraces tbase cfg = OK g) /\
  (0 < tpi cfg -> exists g, layout ntraces tbase cfg = OK g).
Proof.
  intros Hd degenerate. split; [|split].
  - intros [Hz|Hw].
    + unfold layout, seismic_dims. rewrite (truediv_zero _ _ Hz). reflexivity.
    + destruct (Qeq_dec (tpi cfg) 0) as [Hz|Hz].
      * unfold layout, seismic_dims. rewrite (truediv_zero _ _ Hz). reflexivity.
      * unfold layout, seismic_dims, page_dims.
        rewrite (truediv_OK _ _ Hz). cbn [bind]. rewrite Hd. cbn [bind wsd].
        rewrite truediv_zero; [reflexivity|].
        rewrite page_width, Hw. reflexivity.
  - intros Hn. eexists. apply (layout_ok ntraces tbase cfg dur Hd).
    + intros Hz. apply Hn. now left.
    + intros Hw. apply Hn. now right.
  - intros Ht. destruct (positive_tpi_no_fault ntraces cfg Ht) as [Hz Hpos].
    eexists. apply (layout_ok ntraces tbase cfg dur Hd Hz). qlra.
Qed.

Lemma layout_zero_division_witness :
  let degenerate :=
    0 == 0 \/ inject_Z (Z.of_nat 100) / 0 == - (17 # 2) in
  (degenerate ->
     layout 100 [0; 2000] (mkConfig 0 2 1 1 10) = Raise ZeroDivisionError) /\
  (~ degenerate -> exists g, layout 100 [0; 2000] (mkConfig 0 2 1 1 10) = OK g) /\
  (0 < 0 -> exists g, layout 100 [0; 2000] (mkConfig 0 2 1 1 10) = OK g).
Proof.
  apply (layout_zero_division 100 [0; 2000] (mkConfig 0 2 1 1 10) 2000).
  reflexivity.
Defined.

(** C5 as stated fails: a zero [ips] and a negative [tpi] both yield a
    layout, and a zero [tpi] is met by the division itself. *)
Lemma layout_guard_counterexample :
  (exists g, layout 100 [0; 2000] (mkConfig 10 0 1 1 10) = OK g) /\
  (exists g, layout 100 [0; 2000] (mkConfig (-10) 2 1 1 10) = OK g) /\
  layout 100 [0; 2000] (mkConfig 0 2 1 1 10) = Raise ZeroDivisionError /\
  truediv (inject_Z (Z.of_nat 100)) 0 = Raise ZeroDivisionError.
Proof.
  split; [eexists; vm_compute; reflexivity|].
  split; [eexists; vm_compute; reflexivity|].
  split; reflexivity.
Qed.

(** ** Ingestion *)

Lemma scan_headers_last (init : list trace) (tr : trace) :
  nsamples (scan_headers (init ++ [tr]))
    = Some (number_of_samples_in_this_trace (header tr)) /\
  dt (scan_headers (init ++ [tr]))
    = Some (sample_interval_in_ms_for_this_trace (header tr)).
Proof.
  unfold scan_headers. rewrite fold_left_app. cbn. split; reflexivity.
Qed.

(** [np.arange(0, n * d, d)] has [n] entries 0, d, 2d, ... *)
Lemma arange_step_samples (n : nat) (d : Q) :
  ~ d == 0 ->
  Np.arange_step (inject_Z (Z.of_nat n) * d) d
  = OK (map (fun i => inject_Z (Z.of_nat i) * d) (seq 0 n)).
Proof.
  intros Hd. unfold Np.arange_step. rewrite Qeq_bool_false by exact Hd.
  assert (E : inject_Z (Z.of_nat n) * d / d == inject_Z (Z.of_nat n))
    by (field; exact Hd).
  rewrite (Qceiling_comp _ _ E), Qceiling_Z, Nat2Z.id. reflexivity.
Qed.

Lemma time_base_last (init : list trace) (tr : trace) :
  let n := number_of_samples_in_this_trace (header tr) in
  let d := sample_interval_in_ms_for_this_trace (header tr) in
  ~ d == 0 ->
  time_base (scan_headers (init ++ [tr]))
  = OK (map (fun t => (1 # 1000) * t)
            (map (fun i => inject_Z (Z.of_nat i) * d) (seq 0 n))).
Proof.
  intros n d Hd. unfold time_base.
  destruct (scan_headers_last init tr) as [-> ->].
  fold n d. rewrite arange_step_samples by exact Hd. reflexivity.
Qed.

Lemma build_data_consistent (n : nat) (traces : list trace) :
  Forall (fun t => length (trace_data t) = n) traces ->
  build_data n traces = OK (map trace_data traces).
Proof.
  intros H. induction H as [|t rest Ht Hrest IH]; cbn [build_data map].
  - reflexivity.
  - unfold assign_column. rewrite Ht, Nat.eqb_refl. cbn [bind].
    rewrite IH. reflexivity.
Qed.

Lemma assign_column_mismatch (n : nat) (d : list Q) :
  length d <> n -> length d <> 1%nat -> assign_column n d = Raise ValueError.
Proof.
  intros H1 H2. unfold assign_column.
  apply Nat.eqb_neq in H1. rewrite H1.
  destruct d as [|x [|y t]]; try reflexivity. simpl in H2. congruence.
Qed.

Lemma assign_column_raises (n : nat) (d : list Q) (e : exn) :
  assign_column n d = Raise e -> e = ValueError.
Proof.
  unfold assign_column. destruct (length d =? n)%nat; [discriminate|].
  destruct d as [|x [|y t]]; intros H; congruence.
Qed.

Lemma build_data_mismatch (n : nat) (traces : list trace) :
  Exists (fun t => length (trace_data t) <> n /\ length (trace_data t) <> 1%nat)
         traces ->
  build_data n traces = Raise ValueError.
Proof.
  intros H. induction H as [t rest [H1 H2]|t rest Hrest IH]; cbn [build_data].
  - rewrite assign_column_mismatch by assumption. reflexivity.
  - destruct (assign_column n (trace_data t)) as [c|e] eqn:E; cbn [bind].
    + rewrite IH. reflexivity.
    + apply assign_column_raises in E. now subst.
Qed.

(** C6, amended.  Ingestion of an empty sequence faults on the unbound
    [nsamples] ([UnboundLocalError]).  For a non-empty sequence the sample
    count [n >= 1] and the non-zero sample interval [d] of the last record
    are the geometry, whatever the other headers say: ingestion succeeds
    with the matrix of all sample arrays when each has [n] samples, and
    faults with [ValueError] when some array has neither [n] samples nor
    exactly one. *)
Theorem ingest_behaviour (init : list trace) (tr : trace) :
  let traces := init ++ [tr] in
  let n := number_of_samples_in_this_trace (header tr) in
  let d := sample_interval_in_ms_for_this_trace (header tr) in
  (1 <= n)%nat -> ~ d == 0 ->
  ingest [] = Raise UnboundLocalError /\
  (Forall (fun t => length (trace_data t) = n) traces ->
     exists tbase,
       ingest traces
       = OK (mkIngested (map trace_data traces) tbase (length traces) n d) /\
       length tbase = n /\
       forall i, (i < n)%nat ->
         nth i tbase 0 == inject_Z (Z.of_nat i) * d / 1000) /\
  (Exists (fun t => length (trace_data t) <> n /\ length (trace_data t) <> 1%nat)
          traces ->
     ingest traces = Raise ValueError).
Proof.
  intros traces n d Hn Hd.
  pose proof (time_base_last init tr Hd) as Htb. fold n d traces in Htb.
  destruct (scan_headers_last init tr) as [Hns Hdt]. fold n d traces in Hns, Hdt.
  set (tb := map (fun t => (1 # 1000) * t)
                 (map (fun i => inject_Z (Z.of_nat i) * d) (seq 0 n))) in *.
  assert (Hlen : length tb = n)
    by (unfold tb; now rewrite !length_map, length_seq).
  assert (Hmax : exists ma, Np.amax tb = OK ma).
  { apply amax_nonempty. intros E. rewrite E in Hlen. simpl in Hlen. lia. }
  destruct Hmax as [ma Hma].
  split; [reflexivity|]. split.
  - intros Hall. exists tb. split; [|split].
    + unfold ingest. rewrite Htb. cbn [bind]. rewrite Hma. cbn [bind].
      rewrite Hns, Hdt. rewrite build_data_consistent by exact Hall.
      reflexivity.
    + exact Hlen.
    + intros i Hi. unfold tb. rewrite map_map.
      rewrite (nth_indep _ 0 ((1 # 1000) * (inject_Z (Z.of_nat 0) * d)))
        by (now rewrite length_map, length_seq).
      rewrite (map_nth (fun i => (1 # 1000) * (inject_Z (Z.of_nat i) * d))).
      rewrite seq_nth by exact Hi. cbn [Nat.add]. field.
  - intros Hbad. unfold ingest. rewrite Htb. cbn [bind]. rewrite Hma. cbn [bind].
    rewrite Hns, Hdt. rewrite build_data_mismatch by exact Hbad. reflexivity.
Qed.

Lemma ingest_behaviour_witness :
  let init := [sample_trace 5 1000 [1; 2]] in
  let tr := sample_trace 2 2000 [3; 4] in
  let traces := init ++ [tr] in
  ingest [] = Raise UnboundLocalError /\
  (Forall (fun t => length (trace_data t) = 2%nat) traces ->
     exists tbase,
       ingest traces
       = OK (mkIngested (map trace_data traces) tbase (length traces) 2 2000) /\
       length tbase = 2%nat /\
       forall i, (i < 2)%nat ->
         nth i tbase 0 == inject_Z (Z.of_nat i) * 2000 / 1000) /\
  (Exists (fun t => length (trace_data t) <> 2%nat /\ length (trace_data t) <> 1%nat)
          traces ->
     ingest traces = Raise ValueError).
Proof.
  apply (ingest_behaviour [sample_trace 5 1000 [1; 2]] (sample_trace 2 2000 [3; 4])).
  - simpl. lia.
  - simpl. discriminate.
Defined.

(** C6 as stated fails: records that differ in sample interval, or in the
    sample count of their headers, are ingested without any error, and the
    empty sequence is met by an unbound variable, not by a check. *)
Lemma ingest_consistency_counterexample :
  (exists r, ingest [sample_trace 2 1000 [1; 2]; sample_trace 2 2000 [3; 4]] = OK r) /\
  (exists r, ingest [sample_trace 5 1000 [1; 2]; sample_trace 2 1000 [3; 4]] = OK r) /\
  ingest [] = Raise UnboundLocalError.
Proof.
  split; [eexists; vm_compute; reflexivity|].
  split; [eexists; vm_compute; reflexivity|]. reflexivity.
Qed.

(** ** Histogram *)

Lemma amin_le_amax (a : list Q) (ma mi : Q) :
  Np.amax a = OK ma -> Np.amin a = OK mi -> mi <= ma.
Proof.
  intros Hma Hmi.
  destruct (amax_spec _ _ Hma) as [_ Hin].
  destruct (amin_spec _ _ Hmi) as [Hge _].
  rewrite Forall_forall in Hge. now apply Hge.
Qed.

(** [max(amax, abs(amin))] is the greater of the two magnitudes. *)
Lemma largest_magnitude (ma mi : Q) :
  mi <= ma -> Py.max ma (Qabs mi) == Qmax (Qabs ma) (Qabs mi).
Proof.
  intros Hle. rewrite py_max_Qmax.
  destruct (Qlt_le_dec ma 0) as [Hneg|Hpos].
  - assert (E1 : Qabs ma == - ma) by (apply Qabs_neg; qlra).
    assert (E2 : Qabs mi == - mi) by (apply Qabs_neg; qlra).
    rewrite (Q.max_r ma (Qabs mi)) by qlra.
    rewrite (Q.max_r (Qabs ma) (Qabs mi)) by qlra.
    reflexivity.
  - rewrite (Qabs_pos ma) by exact Hpos. reflexivity.
Qed.

Lemma largest_nonzero (ma mi c : Q) :
  mi <= c -> c <= ma -> ~ c == 0 -> ~ Py.max ma (Qabs mi) == 0.
Proof.
  intros H0 H1 Hc E. rewrite py_max_Qmax in E.
  pose proof (Q.le_max_l ma (Qabs mi)) as L1.
  pose proof (Q.le_max_r ma (Qabs mi)) as L2.
  pose proof (Qabs_nonneg mi) as L3.
  pose proof (Qle_Qabs mi) as L4.
  assert (L5 : - mi <= Qabs mi) by (rewrite <- Qabs_opp; apply Qle_Qabs).
  apply Hc. qlra.
Qed.

Lemma Qdiv_zero_iff (c l : Q) : ~ l == 0 -> (c / l == 0 <-> c == 0).
Proof.
  intros Hl. split; intros E.
  - rewrite <- (Qmult_div_r c l) by exact Hl. rewrite E. ring.
  - rewrite E. unfold Qdiv. ring.
Qed.

Lemma trunc_lower (z : Z) (x : Q) :
  inject_Z z <= x -> (z <= Np.trunc x)%Z.
Proof.
  intros H. unfold Np.trunc. destruct x as [p q]. unfold Qle in H. simpl in *.
  apply Z.quot_le_lower_bound; lia.
Qed.

Lemma trunc_upper (z : Z) (x : Q) :
  x <= inject_Z z -> (Np.trunc x <= z)%Z.
Proof.
  intros H. unfold Np.trunc. destruct x as [p q]. unfold Qle in H. simpl in *.
  assert (E : (- z <= Z.quot (- p) (Z.pos q))%Z)
    by (apply Z.quot_le_lower_bound; lia).
  rewrite Z.quot_opp_l in E by lia. lia.
Qed.

Lemma clip_within_largest (ma mi c : Q) :
  mi <= c -> c <= ma -> c <= Py.max ma (Qabs mi) /\ - c <= Py.max ma (Qabs mi).
Proof.
  intros H0 H1. rewrite py_max_Qmax.
  pose proof (Q.le_max_l ma (Qabs mi)) as L1.
  pose proof (Q.le_max_r ma (Qabs mi)) as L2.
  assert (L5 : - mi <= Qabs mi) by (rewrite <- Qabs_opp; apply Qle_Qabs).
  split; qlra.
Qed.

(** The routine once the two float quotients are known: [hist] is given
    [int] of the second one, and refuses it below 1. *)
Lemma plot_histogram_with_quotients
  (fdiv : Np.npfloat -> Np.npfloat -> Np.npfloat) (data : list (list Q))
  (l c q r : Q) :
  largest data = OK l ->
  clip_value data = OK (Np.Fin c) ->
  fdiv (Np.Fin c) (Np.Fin l) = Np.Fin q ->
  fdiv (Np.Fin 100) (Np.Fin q) = Np.Fin r ->
  plot_histogram_with fdiv data
  = if (Np.trunc r <? 1)%Z then Raise ValueError
    else OK (mkHistogram (Np.ravel data) (Np.trunc r) (Np.Fin (- c), Np.Fin c)).
Proof.
  intros Hl Hc Hq Hr. unfold plot_histogram_with.
  rewrite Hl. cbn [bind]. rewrite Hc. cbn [bind]. rewrite Hq, Hr.
  cbn [Np.int bind Np.neg]. reflexivity.
Qed.

(** Under exact division a non-zero clip value gives the quotients
    [c / l] and [100 / (c / l)]. *)
Lemma exact_quotients (ma mi c : Q) :
  mi <= c -> c <= ma -> ~ c == 0 ->
  let l := Py.max ma (Qabs mi) in
  ~ l == 0 /\
  Np.div (Np.Fin c) (Np.Fin l) = Np.Fin (c / l) /\
  Np.div (Np.Fin 100) (Np.Fin (c / l)) = Np.Fin (100 / (c / l)).
Proof.
  intros B0 B1 Hnz l.
  pose proof (largest_nonzero ma mi c B0 B1 Hnz) as Hl. fold l in Hl.
  split; [exact Hl|]. unfold Np.div.
  rewrite (Qeq_bool_false _ _ Hl).
  rewrite Qeq_bool_false by (rewrite Qdiv_zero_iff; assumption).
  split; reflexivity.
Qed.

(** A positive clip value: the histogram is drawn, with at least 100 bins. *)
Lemma plot_histogram_positive (data : list (list Q)) (ma mi c : Q) :
  Np.amax (Np.ravel data) = OK ma ->
  Np.amin (Np.ravel data) = OK mi ->
  clip_value data = OK (Np.Fin c) ->
  mi <= c -> c <= ma -> 0 < c ->
  let l := Py.max ma (Qabs mi) in
  plot_histogram data
  = OK (mkHistogram (Np.ravel data) (Np.trunc (100 / (c / l)))
                    (Np.Fin (- c), Np.Fin c)) /\
  (100 <= Np.trunc (100 / (c / l)))%Z.
Proof.
  intros Hma Hmi Hc B0 B1 Hpos l.
  assert (Hnz : ~ c == 0) by qlra.
  destruct (exact_quotients ma mi c B0 B1 Hnz) as [Hl [Hq Hr]]. fold l in Hl, Hq, Hr.
  destruct (clip_within_largest ma mi c B0 B1) as [U1 _]. fold l in U1.
  assert (Hlg : largest data = OK l).
  { unfold largest. rewrite Hma, Hmi. reflexivity. }
  assert (Hb : (100 <= Np.trunc (100 / (c / l)))%Z).
  { apply trunc_lower.
    assert (HL : 0 < l) by qlra.
    assert (E : 100 / (c / l) == 100 * l / c) by (field; split; qlra).
    rewrite E. apply Qle_shift_div_l; [exact Hpos|].
    change (inject_Z 100) with 100. qlra. }
  split; [|exact Hb].
  unfold plot_histogram.
  rewrite (plot_histogram_with_quotients Np.div data l c _ _ Hlg Hc Hq Hr).
  replace (Np.trunc (100 / (c / l)) <? 1)%Z with false
    by (symmetry; apply Z.ltb_ge; lia).
  reflexivity.
Qed.

(** A negative clip value: the bin count is negative and [hist] raises. *)
Lemma plot_histogram_negative (data : list (list Q)) (ma mi c : Q) :
  Np.amax (Np.ravel data) = OK ma ->
  Np.amin (Np.ravel data) = OK mi ->
  clip_value data = OK (Np.Fin c) ->
  mi <= c -> c <= ma -> c < 0 ->
  plot_histogram data = Raise ValueError.
Proof.
  intros Hma Hmi Hc B0 B1 Hneg.
  assert (Hnz : ~ c == 0) by qlra.
  destruct (exact_quotients ma mi c B0 B1 Hnz) as [Hl [Hq Hr]].
  destruct (clip_within_largest ma mi c B0 B1) as [_ U2].
  set (l := Py.max ma (Qabs mi)) in *.
  assert (Hlg : largest data = OK l).
  { unfold largest. rewrite Hma, Hmi. reflexivity. }
  assert (Hb : (Np.trunc (100 / (c / l)) <= -100)%Z).
  { apply trunc_upper.
    assert (HL : 0 < l) by qlra.
    assert (E : 100 / (c / l) == - (100 * l / - c)) by (field; split; qlra).
    rewrite E. change (inject_Z (-100)) with (- (100)).
    apply Qopp_le_compat. apply Qle_shift_div_l; [qlra|]. qlra. }
  unfold plot_histogram.
  rewrite (plot_histogram_with_quotients Np.div data l c _ _ Hlg Hc Hq Hr).
  replace (Np.trunc (100 / (c / l)) <? 1)%Z with true
    by (symmetry; apply Z.ltb_lt; lia).
  reflexivity.
Qed.

(** C7, amended.  Whenever the clip value (the 99th percentile of the
    signed data, computed inside the routine) is finite and non-zero,
    [largest = max(|max|, |min|)] is non-zero and the bin count is
    [int(100.0 / (clip_val / largest))]: the float quotient truncated
    toward zero, neither rounded nor clamped.  Whatever the float division
    returns for the two quotients, the histogram is drawn with that count
    and the display range [(-clip_val, clip_val)] when the count is at
    least 1, and [hist] raises [ValueError] when it is below 1.  Under
    exact division a positive clip value gives at least 100 bins and a
    negative one always raises. *)
Theorem plot_histogram_bins
  (fdiv : Np.npfloat -> Np.npfloat -> Np.npfloat) (data : list (list Q))
  (ma mi c q r : Q) :
  Np.amax (Np.ravel data) = OK ma ->
  Np.amin (Np.ravel data) = OK mi ->
  clip_value data = OK (Np.Fin c) ->
  ~ c == 0 ->
  exists l,
    largest data = OK l /\
    l == Qmax (Qabs ma) (Qabs mi) /\
    ~ l == 0 /\
    (fdiv (Np.Fin c) (Np.Fin l) = Np.Fin q ->
     fdiv (Np.Fin 100) (Np.Fin q) = Np.Fin r ->
     ((1 <= Np.trunc r)%Z ->
        plot_histogram_with fdiv data
        = OK (mkHistogram (Np.ravel data) (Np.trunc r)
                          (Np.Fin (- c), Np.Fin c))) /\
     ((Np.trunc r < 1)%Z ->
        plot_histogram_with fdiv data = Raise ValueError)) /\
    (0 < c ->
       exists hs,
         plot_histogram data = OK hs /\
         (100 <= bins hs)%Z /\
         xlim hs = (Np.Fin (- c), Np.Fin c)) /\
    (c < 0 -> plot_histogram data = Raise ValueError).
Proof.
  intros Hma Hmi Hc Hnz.
  assert (Hne : Np.ravel data <> []).
  { intros E. rewrite E in Hma. discriminate. }
  destruct (clip_value_between data Hne) as [c' [ma' [mi' [Hc' [Hma' [Hmi' [B0 B1]]]]]]].
  rewrite Hc in Hc'. injection Hc' as <-.
  rewrite Hma in Hma'. injection Hma' as <-.
  rewrite Hmi in Hmi'. injection Hmi' as <-.
  pose proof (largest_nonzero ma mi c B0 B1 Hnz) as Hl.
  assert (Hlg : largest data = OK (Py.max ma (Qabs mi))).
  { unfold largest. rewrite Hma, Hmi. reflexivity. }
  exists (Py.max ma (Qabs mi)). split; [exact Hlg|].
  split; [apply largest_magnitude; eapply amin_le_amax; eassumption|].
  split; [exact Hl|]. split; [|split].
  - intros Hq Hr.
    rewrite (plot_histogram_with_quotients fdiv data _ c q r Hlg Hc Hq Hr).
    split; intros Hb.
    + replace (Np.trunc r <? 1)%Z with false
        by (symmetry; apply Z.ltb_ge; lia).
      reflexivity.
    + replace (Np.trunc r <? 1)%Z with true
        by (symmetry; apply Z.ltb_lt; lia).
      reflexivity.
  - intros Hpos.
    destruct (plot_histogram_positive data ma mi c Hma Hmi Hc B0 B1 Hpos)
      as [Hhs Hb].
    eexists. split; [exact Hhs|]. cbn [bins xlim]. split; [exact Hb | reflexivity].
  - intros Hneg.
    exact (plot_histogram_negative data ma mi c Hma Hmi Hc B0 B1 Hneg).
Qed.

Lemma plot_histogram_bins_witness :
  exists l,
    largest [[-3; 2]] = OK l /\
    l == Qmax (Qabs 2) (Qabs (-3)) /\
    ~ l == 0 /\
    (Np.div (Np.Fin (195 # 100)) (Np.Fin l) = Np.Fin ((195 # 100) / 3) ->
     Np.div (Np.Fin 100) (Np.Fin ((195 # 100) / 3))
       = Np.Fin (100 / ((195 # 100) / 3)) ->
     ((1 <= Np.trunc (100 / ((195 # 100) / 3)))%Z ->
        plot_histogram_with Np.div [[-3; 2]]
        = OK (mkHistogram (Np.ravel [[-3; 2]])
                          (Np.trunc (100 / ((195 # 100) / 3)))
                          (Np.Fin (- (195 # 100)), Np.Fin (195 # 100)))) /\
     ((Np.trunc (100 / ((195 # 100) / 3)) < 1)%Z ->
        plot_histogram_with Np.div [[-3; 2]] = Raise ValueError)) /\
    (0 < 195 # 100 ->
       exists hs,
         plot_histogram [[-3; 2]] = OK hs /\
         (100 <= bins hs)%Z /\
         xlim hs = (Np.Fin (- (195 # 100)), Np.Fin (195 # 100))) /\
    (195 # 100 < 0 -> plot_histogram [[-3; 2]] = Raise ValueError).
Proof.
  apply (plot_histogram_bins Np.div [[-3; 2]] 2 (-3) (195 # 100)
           ((195 # 100) / 3) (100 / ((195 # 100) / 3))).
  - reflexivity.
  - reflexivity.
  - vm_compute. reflexivity.
  - vm_compute. discriminate.
Defined.

(** C7 as stated fails: 153.84... bins are truncated to 153 where rounding
    gives 154; and on a negative clip value, where the claim clamps to one
    bin, the count is -100 and [hist] raises instead of drawing. *)
Lemma plot_histogram_round_counterexample :
  (exists hs c l,
     plot_histogram [[-3; 2]] = OK hs /\
     clip_value [[-3; 2]] = OK (Np.Fin c) /\
     largest [[-3; 2]] = OK l /\
     bins hs = 153%Z /\
     spec_bin_count c l = 154%Z) /\
  (exists c l,
     clip_value [[-1]] = OK (Np.Fin c) /\
     largest [[-1]] = OK l /\
     Np.int (Np.div (Np.Fin 100) (Np.div (Np.Fin c) (Np.Fin l))) = OK (-100)%Z /\
     spec_bin_count c l = 1%Z /\
     plot_histogram [[-1]] = Raise ValueError).
Proof.
  split.
  - eexists. eexists. eexists.
    split; [vm_compute; reflexivity|].
    split; [vm_compute; reflexivity|].
    split; [vm_compute; reflexivity|].
    split; vm_compute; reflexivity.
  - eexists. eexists.
    split; [vm_compute; reflexivity|].
    split; [vm_compute; reflexivity|].
    split; [vm_compute; reflexivity|].
    split; vm_compute; reflexivity.
Qed.

(** C8, amended.  On a non-empty all-zero matrix the histogram computation
    does fail, but by a runtime fault: [largest] and the clip value are both
    computed as zero, their quotient is NaN, and [int] raises [ValueError]
    on it.  No check precedes the arithmetic. *)
Theorem plot_histogram_all_zero (data : list (list Q)) :
  Np.ravel data <> [] ->
  Forall (fun x => x == 0) (Np.ravel data) ->
  exists l c,
    largest data = OK l /\ l == 0 /\
    clip_value data = OK (Np.Fin c) /\ c == 0 /\
    Np.div (Np.Fin 100) (Np.div (Np.Fin c) (Np.Fin l)) = Np.NaN /\
    plot_histogram data = Raise ValueError.
Proof.
  intros Hne Hz.
  destruct (clip_value_between data Hne) as [c [ma [mi [Hc [Hma [Hmi [B0 B1]]]]]]].
  destruct (amax_spec _ _ Hma) as [_ Hin1].
  destruct (amin_spec _ _ Hmi) as [_ Hin2].
  rewrite Forall_forall in Hz.
  pose proof (Hz ma Hin1) as Ema. pose proof (Hz mi Hin2) as Emi.
  assert (Ec : c == 0) by qlra.
  assert (El : Py.max ma (Qabs mi) == 0).
  { rewrite py_max_Qmax, Ema, Emi. reflexivity. }
  assert (Hlg : largest data = OK (Py.max ma (Qabs mi))).
  { unfold largest. rewrite Hma, Hmi. reflexivity. }
  assert (Hdiv : Np.div (Np.Fin 100) (Np.div (Np.Fin c) (Np.Fin (Py.max ma (Qabs mi))))
                 = Np.NaN).
  { unfold Np.div at 2.
    rewrite (Qeq_bool_true _ _ El), (Qeq_bool_true _ _ Ec). reflexivity. }
  exists (Py.max ma (Qabs mi)), c.
  split; [exact Hlg|]. split; [exact El|]. split; [exact Hc|].
  split; [exact Ec|]. split; [exact Hdiv|].
  unfold plot_histogram, plot_histogram_with.
  rewrite Hlg. cbn [bind]. rewrite Hc. cbn [bind].
  rewrite Hdiv. reflexivity.
Qed.

Lemma plot_histogram_all_zero_witness :
  exists l c,
    largest [[0; 0]; [0; 0]] = OK l /\ l == 0 /\
    clip_value [[0; 0]; [0; 0]] = OK (Np.Fin c) /\ c == 0 /\
    Np.div (Np.Fin 100) (Np.div (Np.Fin c) (Np.Fin l)) = Np.NaN /\
    plot_histogram [[0; 0]; [0; 0]] = Raise ValueError.
Proof.
  apply (plot_histogram_all_zero [[0; 0]; [0; 0]]).
  - simpl. discriminate.
  - simpl. repeat constructor.
Defined.

(** C8 as stated fails: on an all-zero matrix the arithmetic is carried
    out, [0 / 0] is NaN, and the failure is the [ValueError] of [int(NaN)];
    no check has run before. *)
Lemma plot_histogram_zero_counterexample :
  largest [[0; 0]; [0; 0]] = OK 0 /\
  Np.div (Np.Fin 0) (Np.Fin 0) = Np.NaN /\
  Np.int Np.NaN = Raise ValueError /\
  plot_histogram [[0; 0]; [0; 0]] = Raise ValueError /\
  plot_histogram [[0; 0]; [0; 0]] <> Raise ZeroDivisionError.
Proof.
  split; [reflexivity|]. split; [reflexivity|]. split; [reflexivity|].
  split; [vm_compute; reflexivity | vm_compute; discriminate].
Qed.

(** ** Spectrum *)

Lemma fftfreq_ok (n : nat) (d : Q) :
  (1 <= n)%nat -> ~ d == 0 ->
  exists faxis,
    Np.fftfreq n d = OK faxis /\
    length faxis = n /\
    forall k, (k < (n - 1) / 2 + 1)%nat ->
      nth k faxis 0 == inject_Z (Z.of_nat k) / (inject_Z (Z.of_nat n) * d).
Proof.
  intros Hn Hd. unfold Np.fftfreq.
  assert (Hnd : ~ inject_Z (Z.of_nat n) * d == 0).
  { intros E. apply Qmult_integral in E. destruct E as [E|E]; [|contradiction].
    unfold Qeq in E. simpl in E. lia. }
  rewrite (truediv_OK _ _ Hnd). cbn [bind].
  assert (HN : ((n - 1) / 2 + 1 <= n)%nat).
  { pose proof (Nat.Div0.div_le_upper_bound (n - 1) 2 (n - 1)). lia. }
  eexists. split; [reflexivity|]. split.
  - rewrite length_map, length_app, !length_map, !length_seq. lia.
  - intros k Hk.
    rewrite (nth_indep _ 0 (inject_Z 0 * (1 / (inject_Z (Z.of_nat n) * d))))
      by (rewrite length_map, length_app, !length_map, !length_seq; lia).
    rewrite (map_nth (fun z => inject_Z z * (1 / (inject_Z (Z.of_nat n) * d)))).
    rewrite app_nth1 by (rewrite length_map, length_seq; exact Hk).
    change 0%Z with (Z.of_nat 0). rewrite map_nth, seq_nth by exact Hk.
    cbn [Nat.add]. field. split; [exact Hd|].
    intros E. unfold Qeq in E. simpl in E. lia.
Qed.

Lemma fft_abs_length (x : list R) : length (Spectrum.fft_abs x) = length x.
Proof. unfold Spectrum.fft_abs. now rewrite length_map, length_seq. Qed.

Lemma fft_abs_nth (x : list R) (k : nat) (d : R) :
  (k < length x)%nat ->
  nth k (Spectrum.fft_abs x) d
  = sqrt (Spectrum.dft_re x k * Spectrum.dft_re x k
          + Spectrum.dft_im x k * Spectrum.dft_im x k)%R.
Proof.
  intros Hk. unfold Spectrum.fft_abs.
  rewrite (nth_indep _ d
    ((fun k => sqrt (Spectrum.dft_re x k * Spectrum.dft_re x k
                     + Spectrum.dft_im x k * Spectrum.dft_im x k)%R) 0%nat))
    by (now rewrite length_map, length_seq).
  rewrite (map_nth (fun k => sqrt (Spectrum.dft_re x k * Spectrum.dft_re x k
                     + Spectrum.dft_im x k * Spectrum.dft_im x k)%R)).
  rewrite seq_nth by exact Hk. reflexivity.
Qed.

Lemma log10_zero : Spectrum.log10 0 = Spectrum.LogNInf.
Proof.
  unfold Spectrum.log10. destruct (Req_dec_T 0 0) as [_|N]; [reflexivity|].
  now contradiction N.
Qed.

Lemma log10_nonzero (x : R) :
  x <> 0%R -> Spectrum.log10 x = Spectrum.LogFin (ln x / ln 10).
Proof.
  intros Hx. unfold Spectrum.log10.
  destruct (Req_dec_T x 0) as [E|_]; [contradiction | reflexivity].
Qed.

(** The spectrum of the second column, whenever [fftfreq] returns. *)
Lemma plot_spectrum_ok (c0 trace : list Q) (rest : list (list Q)) (dt : Q)
  (faxis : list Q) :
  Np.fftfreq (length trace) (dt / 10 ^ 6) = OK faxis ->
  plot_spectrum (c0 :: trace :: rest) dt
  = OK (mkSpectrum
          (firstn (length faxis / 4) faxis)
          (map Spectrum.log10
               (firstn (length faxis / 4) (Spectrum.fft_abs (map Q2R trace))))).
Proof.
  intros Hf. unfold plot_spectrum. cbn [column1 bind].
  destruct trace as [|a t].
  - unfold Np.fftfreq in Hf. rewrite truediv_zero in Hf; [discriminate|].
    cbn [length Z.of_nat]. ring.
  - cbn [map Spectrum.abs_fft bind]. rewrite Hf. reflexivity.
Qed.

(** C9, amended.  With at least two traces, a non-empty second trace of
    [n] samples and a non-zero sample interval, the spectrum is taken from
    the second column: the series have [n // 4] entries, the [k]-th
    frequency is [k / (n * dt / 1e6)], and the [k]-th power is [log10] of
    the magnitude of DFT bin [k].  A zero magnitude raises nothing and is
    not floored: its power is minus infinity. *)
Theorem plot_spectrum_series (c0 trace : list Q) (rest : list (list Q)) (dt : Q) :
  (1 <= length trace)%nat -> ~ dt == 0 ->
  let n := length trace in
  let x := map Q2R trace in
  exists sp,
    plot_spectrum (c0 :: trace :: rest) dt = OK sp /\
    length (spec_x sp) = (n / 4)%nat /\
    length (spec_y sp) = (n / 4)%nat /\
    forall k, (k < n / 4)%nat ->
      let mag := sqrt (Spectrum.dft_re x k * Spectrum.dft_re x k
                       + Spectrum.dft_im x k * Spectrum.dft_im x k)%R in
      nth k (spec_x sp) 0
        == inject_Z (Z.of_nat k) / (inject_Z (Z.of_nat n) * (dt / 10 ^ 6)) /\
      nth k (spec_y sp) Spectrum.LogNInf = Spectrum.log10 mag /\
      (mag = 0%R -> nth k (spec_y sp) Spectrum.LogNInf = Spectrum.LogNInf) /\
      (mag <> 0%R ->
         nth k (spec_y sp) Spectrum.LogNInf = Spectrum.LogFin (ln mag / ln 10)).
Proof.
  intros Hn Hdt n x.
  assert (Hd : ~ dt / 10 ^ 6 == 0).
  { intros E. apply Hdt.
    rewrite <- (Qmult_div_r dt (10 ^ 6)) by discriminate. rewrite E. ring. }
  destruct (fftfreq_ok n (dt / 10 ^ 6) Hn Hd) as [faxis [Hf [Hlen Hnth]]].
  assert (Hq : (n / 4 <= n)%nat)
    by (apply Nat.Div0.div_le_upper_bound; lia).
  assert (Hx : length x = n) by (unfold x; now rewrite length_map).
  eexists. split; [apply (plot_spectrum_ok c0 trace rest dt faxis Hf)|].
  cbn [spec_x spec_y]. rewrite Hlen. fold x.
  split; [rewrite length_firstn; lia|].
  split; [rewrite length_map, length_firstn, fft_abs_length; lia|].
  intros k Hk.
  set (mag := sqrt (Spectrum.dft_re x k * Spectrum.dft_re x k
                    + Spectrum.dft_im x k * Spectrum.dft_im x k)%R).
  assert (Hy : nth k (map Spectrum.log10 (firstn (n / 4) (Spectrum.fft_abs x)))
                   Spectrum.LogNInf = Spectrum.log10 mag).
  { rewrite <- log10_zero at 1. rewrite map_nth.
    rewrite nth_firstn. replace (k <? n / 4)%nat with true
      by (symmetry; apply Nat.ltb_lt; exact Hk).
    rewrite fft_abs_nth by lia. reflexivity. }
  split.
  - rewrite nth_firstn. replace (k <? n / 4)%nat with true
      by (symmetry; apply Nat.ltb_lt; exact Hk).
    apply Hnth.
    pose proof (Nat.Div0.div_le_mono n (2 * n) 4) as M1.
    assert (M2 : (n / 4 <= (n - 1) / 2 + 1)%nat).
    { pose proof (Nat.div_mod_eq n 4). pose proof (Nat.mod_upper_bound n 4).
      pose proof (Nat.div_mod_eq (n - 1) 2). pose proof (Nat.mod_upper_bound (n - 1) 2).
      lia. }
    lia.
  - split; [exact Hy|]. split.
    + intros E. rewrite Hy, E. apply log10_zero.
    + intros E. rewrite Hy. apply log10_nonzero. exact E.
Qed.

Lemma plot_spectrum_series_witness :
  let trace := [0; 0; 0; 0] in
  let n := length trace in
  let x := map Q2R trace in
  exists sp,
    plot_spectrum ([1; 1; 1; 1] :: trace :: []) 1000 = OK sp /\
    length (spec_x sp) = (n / 4)%nat /\
    length (spec_y sp) = (n / 4)%nat /\
    forall k, (k < n / 4)%nat ->
      let mag := sqrt (Spectrum.dft_re x k * Spectrum.dft_re x k
                       + Spectrum.dft_im x k * Spectrum.dft_im x k)%R in
      nth k (spec_x sp) 0
        == inject_Z (Z.of_nat k) / (inject_Z (Z.of_nat n) * (1000 / 10 ^ 6)) /\
      nth k (spec_y sp) Spectrum.LogNInf = Spectrum.log10 mag /\
      (mag = 0%R -> nth k (spec_y sp) Spectrum.LogNInf = Spectrum.LogNInf) /\
      (mag <> 0%R ->
         nth k (spec_y sp) Spectrum.LogNInf = Spectrum.LogFin (ln mag / ln 10)).
Proof.
  apply (plot_spectrum_series [1; 1; 1; 1] [0; 0; 0; 0] [] 1000).
  - simpl. lia.
  - discriminate.
Defined.

Lemma rsum_zero_terms {A : Type} (f : A -> R) (s : list A) (x : list R) :
  Forall (fun v => v = 0%R) x ->
  Spectrum.rsum (map (fun '(j, xj) => (xj * f j)%R) (combine s x)) = 0%R.
Proof.
  intros Hx. revert s. induction Hx as [|v t Hv Ht IH]; intros s.
  - destruct s; reflexivity.
  - destruct s as [|j s]; [reflexivity|].
    cbn [combine map Spectrum.rsum fold_right]. unfold Spectrum.rsum in IH.
    rewrite IH, Hv. ring.
Qed.

Lemma rsum_zero_terms_neg {A : Type} (f : A -> R) (s : list A) (x : list R) :
  Forall (fun v => v = 0%R) x ->
  Spectrum.rsum (map (fun '(j, xj) => (- (xj * f j))%R) (combine s x)) = 0%R.
Proof.
  intros Hx. revert s. induction Hx as [|v t Hv Ht IH]; intros s.
  - destruct s; reflexivity.
  - destruct s as [|j s]; [reflexivity|].
    cbn [combine map Spectrum.rsum fold_right]. unfold Spectrum.rsum in IH.
    rewrite IH, Hv. ring.
Qed.

(** A trace of zeros has zero magnitude in every bin. *)
Lemma dft_zero_trace (x : list R) (k : nat) :
  Forall (fun v => v = 0%R) x ->
  sqrt (Spectrum.dft_re x k * Spectrum.dft_re x k
        + Spectrum.dft_im x k * Spectrum.dft_im x k)%R = 0%R.
Proof.
  intros Hx. unfold Spectrum.dft_re, Spectrum.dft_im.
  rewrite (rsum_zero_terms _ _ _ Hx), (rsum_zero_terms_neg _ _ _ Hx).
  replace (0 * 0 + 0 * 0)%R with 0%R by ring. apply sqrt_0.
Qed.

Lemma Q2R_zero : Q2R 0 = 0%R.
Proof. unfold Q2R. simpl. rlra. Qed.

(** C9 as stated fails: a second trace of zeros has magnitude zero, and the
    routine returns the power minus infinity instead of failing. *)
Lemma plot_spectrum_zero_counterexample :
  exists sp,
    plot_spectrum [[1; 1; 1; 1]; [0; 0; 0; 0]] 1000 = OK sp /\
    spec_y sp = [Spectrum.LogNInf].
Proof.
  destruct (fftfreq_ok 4 (1000 / 10 ^ 6)) as [faxis [Hf [Hlen _]]];
    [lia | discriminate |].
  eexists. split.
  - apply (plot_spectrum_ok [1; 1; 1; 1] [0; 0; 0; 0] [] 1000 faxis Hf).
  - cbn [spec_y]. rewrite Hlen.
    change (4 / 4)%nat with 1%nat.
    cbn [Spectrum.fft_abs map length seq firstn].
    rewrite dft_zero_trace; [now rewrite log10_zero|].
    repeat constructor; apply Q2R_zero.
Qed.

(** ** The normalization used by [main] *)

Lemma stride_aux_In {A : Type} (k fuel : nat) (l : list A) (x : A) :
  In x (Np.stride_aux k fuel l) -> In x l.
Proof.
  revert l. induction fuel as [|f IH]; intros l H.
  - destruct l; contradiction.
  - destruct l as [|y t]; [contradiction|].
    cbn [Np.stride_aux] in H. destruct H as [H|H]; [now left|].
    right. apply IH in H.
    rewrite <- (firstn_skipn (k - 1) t). apply in_or_app. now right.
Qed.

Lemma slice_step_In {A : Type} (l s : list A) (step : Z) (x : A) :
  Np.slice_step l step = OK s -> In x s -> In x l.
Proof.
  unfold Np.slice_step. destruct (step =? 0)%Z; [discriminate|].
  destruct (0 <? step)%Z; intros H Hx; injection H as <-.
  - eapply stride_aux_In; eassumption.
  - apply in_rev. eapply stride_aux_In; eassumption.
Qed.

(** Every wiggle drawn by [wigplot] is a column of the data normalized by
    the percentile [perc] of the data. *)
Lemma wigplot_normalization (data : list (list Q)) (tbase : list Q)
  (ntraces : nat) (skip : Z) (perc gain : Q) (ws : list wiggle) :
  wigplot data tbase ntraces skip perc gain = OK ws ->
  exists sc,
    Np.percentile (Np.ravel data) perc = OK sc /\
    Forall (fun wg => exists trace,
              In trace data /\
              line_x wg = normalized gain sc (fill_x2 wg) trace /\
              fill_x1 wg = line_x wg) ws.
Proof.
  intros H. unfold wigplot in H.
  apply bind_OK in H. destruct H as [sc [Hsc H]].
  apply bind_OK in H. destruct H as [wigdata [Hwd H]].
  apply bind_OK in H. destruct H as [xpos [Hxp H]].
  injection H as <-.
  exists sc. split; [exact Hsc|].
  apply Forall_forall. intros wg Hin.
  apply in_map_iff in Hin. destruct Hin as [[x trace] [<- Hin]].
  exists trace. split.
  - apply in_combine_r in Hin. eapply slice_step_In; eassumption.
  - split; reflexivity.
Qed.

(** What a successful run of [main] has computed. *)
Lemma main_inversion (traces : list trace) (cfg : config) (r : run) :
  main traces cfg = OK r ->
  clip_value (run_data r) = OK (clip_val r) /\
  wigplot (run_data r) (run_tbase r) (run_ntraces r) (skip cfg)
          wigplot_default_perc (gain cfg) = OK (run_wiggles r).
Proof.
  intros H. unfold main in H.
  apply bind_OK in H. destruct H as [tbase [Htb H]].
  apply bind_OK in H. destruct H as [tend [Hte H]].
  apply bind_OK in H. destruct H as [sz [Hsz H]].
  destruct (nsamples (scan_headers traces)) as [n|]; [|discriminate].
  destruct (dt (scan_headers traces)) as [d|]; [|discriminate].
  apply bind_OK in H. destruct H as [data [Hdata H]].
  apply bind_OK in H. destruct H as [cv [Hcv H]].
  apply bind_OK in H. destruct H as [pg [Hpg H]].
  apply bind_OK in H. destruct H as [wig [Hwig H]].
  apply bind_OK in H. destruct H as [hist [Hhist H]].
  apply bind_OK in H. destruct H as [spec [Hspec H]].
  injection H as <-. cbn [run_data clip_val run_tbase run_ntraces run_wiggles].
  split; assumption.
Qed.

(** On the sample run the two percentiles do differ: the wiggles are
    normalized by 86.84 while the reported clip value is 93.42. *)
Example two_traces_percentiles_differ :
  exists p98 p99,
    Np.percentile (Np.ravel (map trace_data two_traces)) 98 = OK (Np.Fin p98) /\
    Np.percentile (Np.ravel (map trace_data two_traces)) 99 = OK (Np.Fin p99) /\
    p98 == 8684 # 100 /\ p99 == 9342 # 100 /\
    ~ Np.eqf (Np.Fin p98) (Np.Fin p99).
Proof.
  eexists. eexists. split; [vm_compute; reflexivity|].
  split; [vm_compute; reflexivity|].
  split; [reflexivity|]. split; [reflexivity|].
  cbn [Np.eqf]. intros H. vm_compute in H. discriminate.
Qed.

(** * Further properties of the code *)

(** ** The header loop and the data container *)

Lemma scan_fold_fields (traces : list trace) (st : header_scan) :
  let st' := fold_left scan_step traces st in
  elev st' = elev st ++ map (fun t => receiver_group_elevation (header t)) traces /\
  esp st' = esp st ++ map (fun t => energy_source_point_number (header t)) traces /\
  ens st' = ens st ++ map (fun t => ensemble_number (header t)) traces /\
  tsq st' = tsq st ++ map (fun t => trace_sequence_number_within_line (header t)) traces.
Proof.
  revert st. induction traces as [|t rest IH]; intros st; cbn [fold_left map].
  - rewrite !app_nil_r. repeat split.
  - destruct (IH (scan_step st t)) as [E1 [E2 [E3 E4]]].
    cbv zeta. rewrite E1, E2, E3, E4. cbn [scan_step elev esp ens tsq].
    rewrite <- !app_assoc. repeat split.
Qed.

(** X1.  The header loop collects the elevation, source point, ensemble
    and sequence number of every trace, in trace order; the sample count
    and the sample interval it leaves behind are those of the last trace,
    and are unbound exactly on an empty section. *)
Theorem scan_headers_collects (traces : list trace) :
  let st := scan_headers traces in
  elev st = map (fun t => receiver_group_elevation (header t)) traces /\
  esp st = map (fun t => energy_source_point_number (header t)) traces /\
  ens st = map (fun t => ensemble_number (header t)) traces /\
  tsq st = map (fun t => trace_sequence_number_within_line (header t)) traces /\
  length (ens st) = length traces /\
  nsamples st
    = option_map (fun t => number_of_samples_in_this_trace (header t))
                 (last (map Some traces) None) /\
  dt st
    = option_map (fun t => sample_interval_in_ms_for_this_trace (header t))
                 (last (map Some traces) None).
Proof.
  cbv zeta.
  destruct (scan_fold_fields traces (mkScan None None [] [] [] []))
    as [E1 [E2 [E3 E4]]].
  fold (scan_headers traces) in E1, E2, E3, E4. cbn [elev esp ens tsq app] in *.
  split; [exact E1|]. split; [exact E2|]. split; [exact E3|]. split; [exact E4|].
  split; [rewrite E3; apply length_map|].
  clear E1 E2 E3 E4.
  induction traces as [|t0 rest _] using rev_ind.
  - split; reflexivity.
  - destruct (scan_headers_last rest t0) as [-> ->].
    rewrite map_app. cbn [map]. rewrite last_last. split; reflexivity.
Qed.

Lemma assign_column_shape (n : nat) (d c : list Q) :
  assign_column n d = OK c ->
  length c = n /\ (c = d \/ exists x, d = [x] /\ c = repeat x n).
Proof.
  unfold assign_column. destruct (length d =? n)%nat eqn:E.
  - intros H. injection H as <-. apply Nat.eqb_eq in E. split; [exact E | now left].
  - destruct d as [|x [|y t]]; intros H; try discriminate.
    injection H as <-. split; [apply repeat_length|].
    right. exists x. split; reflexivity.
Qed.

(** A built data container is rectangular. *)
Lemma build_data_rect (n : nat) (traces : list trace) (data : list (list Q)) :
  build_data n traces = OK data ->
  length data = length traces /\ Forall (fun c => length c = n) data.
Proof.
  revert data. induction traces as [|t rest IH]; intros data H; cbn [build_data] in H.
  - injection H as <-. split; constructor.
  - apply bind_OK in H. destruct H as [c [Hc H]].
    apply bind_OK in H. destruct H as [cs [Hcs H]].
    injection H as <-.
    destruct (IH cs Hcs) as [L F].
    destruct (assign_column_shape _ _ _ Hc) as [Lc _].
    split; [cbn [length]; now rewrite L | constructor; assumption].
Qed.

(** X2.  When the data container is built, it is rectangular: one column
    per trace, each of [nsamples] rows; a column holds the samples of its
    trace, or the single sample of a one-sample trace repeated down the
    column. *)
Theorem build_data_shape (n : nat) (traces : list trace) (data : list (list Q)) :
  build_data n traces = OK data ->
  length data = length traces /\
  Forall (fun c => length c = n) data /\
  Forall2 (fun tr c =>
             c = trace_data tr \/
             exists x, trace_data tr = [x] /\ c = repeat x n) traces data.
Proof.
  revert data. induction traces as [|t rest IH]; intros data H; cbn [build_data] in H.
  - injection H as <-. repeat split; constructor.
  - apply bind_OK in H. destruct H as [c [Hc H]].
    apply bind_OK in H. destruct H as [cs [Hcs H]].
    injection H as <-.
    destruct (IH cs Hcs) as [L [F1 F2]].
    destruct (assign_column_shape _ _ _ Hc) as [Lc Sc].
    split; [cbn [length]; now rewrite L|].
    split; constructor; assumption.
Qed.

Lemma build_data_shape_witness :
  exists data,
    build_data 2 [sample_trace 2 1000 [1; 2]; sample_trace 2 1000 [7]] = OK data /\
    length data = 2%nat /\
    Forall (fun c => length c = 2%nat) data /\
    Forall2 (fun tr c =>
               c = trace_data tr \/
               exists x, trace_data tr = [x] /\ c = repeat x 2)
            [sample_trace 2 1000 [1; 2]; sample_trace 2 1000 [7]] data.
Proof.
  exists [[1; 2]; [7; 7]]. split; [reflexivity|].
  apply (build_data_shape 2 [sample_trace 2 1000 [1; 2]; sample_trace 2 1000 [7]]).
  reflexivity.
Defined.

(** ** The time base *)

Lemma amax_unique (a : list Q) (x ma : Q) :
  In x a -> Forall (fun y => y <= x) a -> Np.amax a = OK ma -> ma == x.
Proof.
  intros Hin Hall Hma. destruct (amax_spec _ _ Hma) as [Hle Hin'].
  rewrite Forall_forall in Hall, Hle.
  apply Qle_antisym; [now apply Hall | now apply Hle].
Qed.

Lemma amin_unique (a : list Q) (x mi : Q) :
  In x a -> Forall (fun y => x <= y) a -> Np.amin a = OK mi -> mi == x.
Proof.
  intros Hin Hall Hmi. destruct (amin_spec _ _ Hmi) as [Hge Hin'].
  rewrite Forall_forall in Hall, Hge.
  apply Qle_antisym; [now apply Hge | now apply Hall].
Qed.

(** The samples times 0, d, 2d, ... in milliseconds. *)
Lemma tick_In (n i : nat) (d : Q) :
  (i < n)%nat ->
  In ((1 # 1000) * (inject_Z (Z.of_nat i) * d))
     (map (fun t => (1 # 1000) * t)
          (map (fun i => inject_Z (Z.of_nat i) * d) (seq 0 n))).
Proof.
  intros Hi. rewrite map_map.
  apply (in_map (fun i => (1 # 1000) * (inject_Z (Z.of_nat i) * d))).
  apply in_seq. lia.
Qed.

Lemma tick_Forall (P : Q -> Prop) (n : nat) (d : Q) :
  (forall i, (i < n)%nat -> P ((1 # 1000) * (inject_Z (Z.of_nat i) * d))) ->
  Forall P (map (fun t => (1 # 1000) * t)
                (map (fun i => inject_Z (Z.of_nat i) * d) (seq 0 n))).
Proof.
  intros H. rewrite map_map. apply Forall_forall. intros y Hy.
  apply in_map_iff in Hy. destruct Hy as [i [<- Hi]].
  apply in_seq in Hi. apply H. lia.
Qed.

Lemma index_le (i n : nat) : (i < n)%nat ->
  0 <= inject_Z (Z.of_nat i) /\
  inject_Z (Z.of_nat i) <= inject_Z (Z.of_nat (n - 1)).
Proof.
  intros Hi. split.
  - change 0 with (inject_Z 0). rewrite <- Zle_Qle. lia.
  - rewrite <- Zle_Qle. lia.
Qed.

Lemma tick_le (a b d : Q) :
  a <= b -> 0 <= d -> (1 # 1000) * (a * d) <= (1 # 1000) * (b * d).
Proof.
  intros Hab Hd.
  assert (H : 0 <= (b - a) * d) by (apply Qmult_le_0_compat; qlra).
  qlra.
Qed.

Lemma tick_ge (a b d : Q) :
  a <= b -> d <= 0 -> (1 # 1000) * (b * d) <= (1 # 1000) * (a * d).
Proof.
  intros Hab Hd.
  assert (H : 0 <= (b - a) * - d) by (apply Qmult_le_0_compat; qlra).
  qlra.
Qed.

(** The time base of a section and the duration it spans. *)
Lemma time_base_span (init : list trace) (tr : trace) :
  let n := number_of_samples_in_this_trace (header tr) in
  let d := sample_interval_in_ms_for_this_trace (header tr) in
  (1 <= n)%nat -> ~ d == 0 ->
  exists tbase dur,
    time_base (scan_headers (init ++ [tr])) = OK tbase /\
    duration tbase = OK dur /\
    dur == inject_Z (Z.of_nat (n - 1)) * Qabs d / 1000.
Proof.
  intros n d Hn Hd.
  pose proof (time_base_last init tr Hd) as Htb. fold n d in Htb.
  set (tb := map (fun t => (1 # 1000) * t)
                 (map (fun i => inject_Z (Z.of_nat i) * d) (seq 0 n))) in *.
  assert (Hne : tb <> []).
  { intros E. apply (f_equal (@length Q)) in E. unfold tb in E.
    rewrite !length_map, length_seq in E. simpl in E. lia. }
  destruct (amax_nonempty _ Hne) as [tend Hmax].
  destruct (amin_nonempty _ Hne) as [tstart Hmin].
  assert (I0 : In ((1 # 1000) * (inject_Z (Z.of_nat 0) * d)) tb)
    by (apply tick_In; lia).
  assert (I1 : In ((1 # 1000) * (inject_Z (Z.of_nat (n - 1)) * d)) tb)
    by (apply tick_In; lia).
  exists tb, (tend - tstart).
  split; [exact Htb|].
  split; [unfold duration; rewrite Hmax, Hmin; reflexivity|].
  destruct (Q_dec d 0) as [[Hs|Hs]|Hs]; [| |contradiction].
  - rewrite (amax_unique tb _ tend I0);
      [| apply tick_Forall; intros i Hi; destruct (index_le i n Hi) as [A B];
         apply tick_ge; [exact A | qlra] | exact Hmax].
    rewrite (amin_unique tb _ tstart I1);
      [| apply tick_Forall; intros i Hi; destruct (index_le i n Hi) as [A B];
         apply tick_ge; [exact B | qlra] | exact Hmin].
    rewrite (Qabs_neg d) by qlra. cbn [Z.of_nat]. field.
  - rewrite (amax_unique tb _ tend I1);
      [| apply tick_Forall; intros i Hi; destruct (index_le i n Hi) as [A B];
         apply tick_le; [exact B | qlra] | exact Hmax].
    rewrite (amin_unique tb _ tstart I0);
      [| apply tick_Forall; intros i Hi; destruct (index_le i n Hi) as [A B];
         apply tick_le; [exact A | qlra] | exact Hmin].
    rewrite (Qabs_pos d) by qlra. cbn [Z.of_nat]. field.
Qed.

(** X3.  For a section whose last trace announces [n >= 1] samples at a
    non-zero interval [d], the time base spans [n - 1] intervals: the
    duration that drives the page height is [(n - 1) * |d| / 1000], and for
    a positive interval the time base starts at 0 and ends at
    [(n - 1) * d / 1000]. *)
Theorem time_base_duration (init : list trace) (tr : trace) :
  let n := number_of_samples_in_this_trace (header tr) in
  let d := sample_interval_in_ms_for_this_trace (header tr) in
  (1 <= n)%nat -> ~ d == 0 ->
  exists tbase tend tstart dur,
    time_base (scan_headers (init ++ [tr])) = OK tbase /\
    Np.amax tbase = OK tend /\
    Np.amin tbase = OK tstart /\
    duration tbase = OK dur /\
    dur == inject_Z (Z.of_nat (n - 1)) * Qabs d / 1000 /\
    (0 < d -> tstart == 0 /\ tend == inject_Z (Z.of_nat (n - 1)) * d / 1000).
Proof.
  intros n d Hn Hd.
  pose proof (time_base_last init tr Hd) as Htb. fold n d in Htb.
  set (tb := map (fun t => (1 # 1000) * t)
                 (map (fun i => inject_Z (Z.of_nat i) * d) (seq 0 n))) in *.
  assert (Hne : tb <> []).
  { intros E. apply (f_equal (@length Q)) in E. unfold tb in E.
    rewrite !length_map, length_seq in E. simpl in E. lia. }
  destruct (amax_nonempty _ Hne) as [tend Hmax].
  destruct (amin_nonempty _ Hne) as [tstart Hmin].
  assert (I0 : In ((1 # 1000) * (inject_Z (Z.of_nat 0) * d)) tb)
    by (apply tick_In; lia).
  assert (I1 : In ((1 # 1000) * (inject_Z (Z.of_nat (n - 1)) * d)) tb)
    by (apply tick_In; lia).
  assert (Hends :
    (0 < d -> tstart == 0 /\ tend == inject_Z (Z.of_nat (n - 1)) * d / 1000) /\
    (d < 0 -> tend == 0 /\ tstart == inject_Z (Z.of_nat (n - 1)) * d / 1000)).
  { split; intros Hs; split.
    - rewrite (amin_unique tb _ tstart I0); [cbn; ring | | exact Hmin].
      apply tick_Forall. intros i Hi. destruct (index_le i n Hi) as [A B].
      apply tick_le; [exact A | qlra].
    - rewrite (amax_unique tb _ tend I1); [field | | exact Hmax].
      apply tick_Forall. intros i Hi. destruct (index_le i n Hi) as [A B].
      apply tick_le; [exact B | qlra].
    - rewrite (amax_unique tb _ tend I0); [cbn; ring | | exact Hmax].
      apply tick_Forall. intros i Hi. destruct (index_le i n Hi) as [A B].
      apply tick_ge; [exact A | qlra].
    - rewrite (amin_unique tb _ tstart I1); [field | | exact Hmin].
      apply tick_Forall. intros i Hi. destruct (index_le i n Hi) as [A B].
      apply tick_ge; [exact B | qlra]. }
  destruct Hends as [Hpos Hneg].
  exists tb, tend, tstart, (tend - tstart).
  split; [exact Htb|]. split; [exact Hmax|]. split; [exact Hmin|].
  split; [unfold duration; rewrite Hmax, Hmin; reflexivity|].
  split; [|exact Hpos].
  destruct (Q_dec d 0) as [[Hs|Hs]|Hs]; [| |contradiction].
  - destruct (Hneg Hs) as [E1 E2]. rewrite E1, E2.
    rewrite (Qabs_neg d) by qlra. field.
  - destruct (Hpos Hs) as [E1 E2]. rewrite E1, E2.
    rewrite (Qabs_pos d) by qlra. field.
Qed.

Lemma time_base_duration_witness :
  let tr := sample_trace 4 1000 [1; 2; 3; 4] in
  exists tbase tend tstart dur,
    time_base (scan_headers ([] ++ [tr])) = OK tbase /\
    Np.amax tbase = OK tend /\
    Np.amin tbase = OK tstart /\
    duration tbase = OK dur /\
    dur == inject_Z (Z.of_nat (4 - 1)) * Qabs 1000 / 1000 /\
    (0 < 1000 -> tstart == 0 /\ tend == inject_Z (Z.of_nat (4 - 1)) * 1000 / 1000).
Proof.
  apply (time_base_duration [] (sample_trace 4 1000 [1; 2; 3; 4])).
  - simpl. lia.
  - simpl. discriminate.
Defined.

(** ** The histogram: outcomes and bin counts *)

(** With a zero clip value nothing is drawn: [int] raises. *)
Lemma plot_histogram_zero_clip (data : list (list Q)) (c l : Q) :
  clip_value data = OK (Np.Fin c) ->
  largest data = OK l ->
  c == 0 ->
  plot_histogram data
  = Raise (if Qeq_bool l 0 then ValueError else OverflowError).
Proof.
  intros Hc Hlg Ec. unfold plot_histogram, plot_histogram_with.
  rewrite Hlg. cbn [bind]. rewrite Hc.
  cbn [bind]. unfold Np.div at 2. destruct (Qeq_bool l 0) eqn:El.
  - rewrite (Qeq_bool_true _ _ Ec). reflexivity.
  - unfold Np.div. apply Qeq_bool_neq in El.
    rewrite Qeq_bool_true by (apply Qdiv_zero_iff; assumption).
    cbn. reflexivity.
Qed.

(** X4.  On a non-empty matrix the outcome of the histogram is decided by
    the sign of the clip value (the 99th percentile): it is drawn when the
    clip value is positive; a negative clip value gives a negative bin
    count, which [hist] refuses with [ValueError]; a zero clip value on
    data that are not all zero makes [100.0 / 0] infinite and [int] raises
    [OverflowError]; on all-zero data [int] raises [ValueError]. *)
Theorem plot_histogram_outcome (data : list (list Q)) :
  Np.ravel data <> [] ->
  exists c l,
    clip_value data = OK (Np.Fin c) /\
    largest data = OK l /\
    (0 < c -> exists hs, plot_histogram data = OK hs) /\
    (c < 0 -> plot_histogram data = Raise ValueError) /\
    (c == 0 -> ~ l == 0 -> plot_histogram data = Raise OverflowError) /\
    (c == 0 -> l == 0 -> plot_histogram data = Raise ValueError).
Proof.
  intros Hne.
  destruct (clip_value_between data Hne) as [c [ma [mi [Hc [Hma [Hmi [B0 B1]]]]]]].
  assert (Hlg : largest data = OK (Py.max ma (Qabs mi))).
  { unfold largest. rewrite Hma, Hmi. reflexivity. }
  exists c, (Py.max ma (Qabs mi)).
  split; [exact Hc|]. split; [exact Hlg|].
  split; [|split; [|split]].
  - intros Hpos.
    destruct (plot_histogram_positive data ma mi c Hma Hmi Hc B0 B1 Hpos)
      as [Hhs _].
    eexists. exact Hhs.
  - intros Hneg.
    exact (plot_histogram_negative data ma mi c Hma Hmi Hc B0 B1 Hneg).
  - intros Ec Hl.
    rewrite (plot_histogram_zero_clip data c _ Hc Hlg Ec).
    now rewrite (Qeq_bool_false _ _ Hl).
  - intros Ec El.
    rewrite (plot_histogram_zero_clip data c _ Hc Hlg Ec).
    now rewrite (Qeq_bool_true _ _ El).
Qed.

Lemma plot_histogram_outcome_witness :
  exists c l,
    clip_value sparse_data = OK (Np.Fin c) /\
    largest sparse_data = OK l /\
    (0 < c -> exists hs, plot_histogram sparse_data = OK hs) /\
    (c < 0 -> plot_histogram sparse_data = Raise ValueError) /\
    (c == 0 -> ~ l == 0 ->
       plot_histogram sparse_data = Raise OverflowError) /\
    (c == 0 -> l == 0 -> plot_histogram sparse_data = Raise ValueError).
Proof.
  apply (plot_histogram_outcome sparse_data).
  vm_compute. discriminate.
Defined.

(** The sparse sample has a zero clip value and is met by [OverflowError];
    an all-negative sample is refused by [hist]; a mixed one is drawn. *)
Example plot_histogram_sparse :
  clip_value sparse_data = OK (Np.Fin (0 # 100)) /\
  plot_histogram sparse_data = Raise OverflowError /\
  plot_histogram [[-3; -1]; [-2; -5]] = Raise ValueError /\
  exists hs, plot_histogram [[-3; 2]] = OK hs /\ bins hs = 153%Z.
Proof.
  split; [vm_compute; reflexivity|]. split; [vm_compute; reflexivity|].
  split; [vm_compute; reflexivity|].
  eexists. split; vm_compute; reflexivity.
Qed.

(** X5.  A histogram is drawn only for a positive clip value, and then
    with at least 100 bins: the clip value never exceeds [largest], so
    [100.0 / (clip_val / largest)] is at least 100.  Its display range is
    [(-clip_val, clip_val)]. *)
Theorem plot_histogram_bin_bound (data : list (list Q)) (hs : histogram) :
  plot_histogram data = OK hs ->
  exists c,
    clip_value data = OK (Np.Fin c) /\
    0 < c /\
    (100 <= bins hs)%Z /\
    xlim hs = (Np.Fin (- c), Np.Fin c) /\
    hist_x hs = Np.ravel data.
Proof.
  intros H.
  assert (Hne : Np.ravel data <> []).
  { intros E. unfold plot_histogram, plot_histogram_with, largest in H.
    rewrite E in H. discriminate. }
  destruct (clip_value_between data Hne) as [c [ma [mi [Hc [Hma [Hmi [B0 B1]]]]]]].
  assert (Hlg : largest data = OK (Py.max ma (Qabs mi))).
  { unfold largest. rewrite Hma, Hmi. reflexivity. }
  destruct (Q_dec c 0) as [[Hneg|Hpos]|Ec].
  - rewrite (plot_histogram_negative data ma mi c Hma Hmi Hc B0 B1 Hneg) in H.
    discriminate.
  - destruct (plot_histogram_positive data ma mi c Hma Hmi Hc B0 B1 Hpos)
      as [Hhs Hb].
    rewrite Hhs in H. injection H as <-. cbn [bins xlim hist_x].
    exists c. repeat (split; [first [assumption | reflexivity]|]). reflexivity.
  - rewrite (plot_histogram_zero_clip data c _ Hc Hlg Ec) in H. discriminate.
Qed.

Lemma plot_histogram_bin_bound_witness :
  exists hs,
    plot_histogram [[-3; 2]] = OK hs /\
    exists c,
      clip_value [[-3; 2]] = OK (Np.Fin c) /\
      0 < c /\
      (100 <= bins hs)%Z /\
      xlim hs = (Np.Fin (- c), Np.Fin c) /\
      hist_x hs = Np.ravel [[-3; 2]].
Proof.
  eexists. split; [vm_compute; reflexivity|].
  apply (plot_histogram_bin_bound [[-3; 2]]).
  vm_compute. reflexivity.
Defined.

(** ** What a successful run of [main] guarantees *)

(** Every step of a successful run, in the order of the script. *)
Lemma main_steps (traces : list trace) (cfg : config) (r : run) :
  main traces cfg = OK r ->
  nsamples (scan_headers traces) = Some (run_nsamples r) /\
  dt (scan_headers traces) = Some (run_dt r) /\
  run_ntraces r = length traces /\
  time_base (scan_headers traces) = OK (run_tbase r) /\
  Np.amax (run_tbase r) = OK (run_tend r) /\
  seismic_dims (length traces) (run_tbase r) cfg = OK (size (run_geometry r)) /\
  build_data (run_nsamples r) traces = OK (run_data r) /\
  page_dims (wsd (size (run_geometry r))) (run_tbase r) cfg
    = OK (figsize (run_geometry r)) /\
  plot_histogram (run_data r) = OK (run_histogram r) /\
  plot_spectrum (run_data r) (run_dt r) = OK (run_spectrum r).
Proof.
  intros H. unfold main in H.
  apply bind_OK in H. destruct H as [tbase [Htb H]].
  apply bind_OK in H. destruct H as [tend [Hte H]].
  apply bind_OK in H. destruct H as [sz [Hsz H]].
  destruct (nsamples (scan_headers traces)) as [n|]; [|discriminate].
  destruct (dt (scan_headers traces)) as [d|]; [|discriminate].
  apply bind_OK in H. destruct H as [data [Hdata H]].
  apply bind_OK in H. destruct H as [cv [Hcv H]].
  apply bind_OK in H. destruct H as [pg [Hpg H]].
  apply bind_OK in H. destruct H as [wig [Hwig H]].
  apply bind_OK in H. destruct H as [hist [Hhist H]].
  apply bind_OK in H. destruct H as [spec [Hspec H]].
  injection H as <-.
  cbn [run_nsamples run_dt run_ntraces run_tbase run_tend run_geometry size
       figsize run_data run_histogram run_spectrum].
  repeat (split; [first [reflexivity | assumption]|]). assumption.
Qed.

Lemma time_base_ok (st : header_scan) (tbase : list Q) (tend : Q) :
  time_base st = OK tbase -> Np.amax tbase = OK tend ->
  exists n d,
    nsamples st = Some n /\ dt st = Some d /\ (1 <= n)%nat /\ ~ d == 0.
Proof.
  unfold time_base. intros H Hmax.
  destruct (nsamples st) as [n|]; [|discriminate].
  destruct (dt st) as [d|]; [|discriminate].
  exists n, d. split; [reflexivity|]. split; [reflexivity|].
  destruct (Qeq_dec d 0) as [E|E].
  - unfold Np.arange_step in H. rewrite (Qeq_bool_true _ _ E) in H. discriminate.
  - split; [|exact E].
    rewrite (arange_step_samples n d E) in H. cbn [bind] in H.
    injection H as <-. destruct n; [|lia].
    cbn in Hmax. discriminate.
Qed.

(** X6.  A run of [main] that completes has read at least two traces
    (the spectrum is taken from the second one) with at least one sample
    each and a non-zero sample interval; its data matrix has one column per
    trace and [nsamples] rows in every column; and [tpi] and [skip] are
    non-zero. *)
Theorem main_success_requirements (traces : list trace) (cfg : config) (r : run) :
  main traces cfg = OK r ->
  (2 <= length traces)%nat /\
  run_ntraces r = length traces /\
  length (run_data r) = length traces /\
  Forall (fun c => length c = run_nsamples r) (run_data r) /\
  (1 <= run_nsamples r)%nat /\
  ~ run_dt r == 0 /\
  ~ tpi cfg == 0 /\
  skip cfg <> 0%Z.
Proof.
  intros H.
  destruct (main_inversion traces cfg r H) as [_ Hw].
  destruct (main_steps traces cfg r H)
    as [Hn [Hd [Hnt [Htb [Hte [Hsz [Hdata [_ [_ Hsp]]]]]]]]].
  destruct (build_data_rect _ _ _ Hdata) as [L F].
  destruct (time_base_ok _ _ _ Htb Hte) as [n [d [Hn' [Hd' [N1 D1]]]]].
  rewrite Hn in Hn'. injection Hn' as <-. rewrite Hd in Hd'. injection Hd' as <-.
  split.
  { rewrite <- L. unfold plot_spectrum, column1 in Hsp.
    destruct (run_data r) as [|c0 [|c1 rest]]; cbn in Hsp; try discriminate.
    cbn. lia. }
  split; [exact Hnt|]. split; [exact L|]. split; [exact F|].
  split; [exact N1|]. split; [exact D1|]. split.
  - intros E. unfold seismic_dims in Hsz. rewrite (truediv_zero _ _ E) in Hsz.
    discriminate.
  - intros E. unfold wigplot in Hw.
    destruct (Np.percentile (Np.ravel (run_data r)) wigplot_default_perc);
      [|discriminate].
    cbn [bind] in Hw. unfold Np.slice_step in Hw. rewrite E in Hw. discriminate.
Qed.

Lemma main_success_requirements_witness :
  exists r,
    main two_traces sample_config = OK r /\
    (2 <= length two_traces)%nat /\
    run_ntraces r = length two_traces /\
    length (run_data r) = length two_traces /\
    Forall (fun c => length c = run_nsamples r) (run_data r) /\
    (1 <= run_nsamples r)%nat /\
    ~ run_dt r == 0 /\
    ~ tpi sample_config == 0 /\
    skip sample_config <> 0%Z.
Proof.
  assert (H : exists r, main two_traces sample_config = OK r)
    by (eexists; reflexivity).
  destruct H as [r H]. exists r. split; [exact H|].
  apply (main_success_requirements two_traces sample_config r H).
Defined.

(** X7.  In a run of [main] that completes, the reported clip value is a
    finite, non-zero number between the least and the greatest amplitude:
    with a zero clip value the histogram would have raised. *)
Theorem main_clip_value_nonzero (traces : list trace) (cfg : config) (r : run) :
  main traces cfg = OK r ->
  exists c ma mi,
    clip_val r = Np.Fin c /\ ~ c == 0 /\
    Np.amax (Np.ravel (run_data r)) = OK ma /\
    Np.amin (Np.ravel (run_data r)) = OK mi /\
    mi <= c /\ c <= ma.
Proof.
  intros H.
  destruct (main_inversion traces cfg r H) as [Hc _].
  destruct (main_steps traces cfg r H) as [_ [_ [_ [_ [_ [_ [_ [_ [Hh _]]]]]]]]].
  assert (Hne : Np.ravel (run_data r) <> []).
  { intros E. unfold plot_histogram, plot_histogram_with, largest in Hh.
    rewrite E in Hh. discriminate. }
  destruct (clip_value_between _ Hne) as [c [ma [mi [Hc' [Hma [Hmi [B0 B1]]]]]]].
  rewrite Hc in Hc'. injection Hc' as Hcv.
  assert (Hlg : largest (run_data r) = OK (Py.max ma (Qabs mi))).
  { unfold largest. rewrite Hma, Hmi. reflexivity. }
  exists c, ma, mi. split; [exact Hcv|]. split.
  - intros Ec. rewrite Hcv in Hc.
    rewrite (plot_histogram_zero_clip _ c _ Hc Hlg Ec) in Hh. discriminate.
  - repeat (split; [assumption|]). assumption.
Qed.

Lemma main_clip_value_nonzero_witness :
  exists r,
    main two_traces sample_config = OK r /\
    exists c ma mi,
      clip_val r = Np.Fin c /\ ~ c == 0 /\
      Np.amax (Np.ravel (run_data r)) = OK ma /\
      Np.amin (Np.ravel (run_data r)) = OK mi /\
      mi <= c /\ c <= ma.
Proof.
  assert (H : exists r, main two_traces sample_config = OK r)
    by (eexists; reflexivity).
  destruct H as [r H]. exists r. split; [exact H|].
  apply (main_clip_value_nonzero two_traces sample_config r H).
Defined.

Lemma scan_headers_nonempty (traces : list trace) (n : nat) :
  nsamples (scan_headers traces) = Some n ->
  exists init tr, traces = init ++ [tr].
Proof.
  intros H. destruct traces as [|t rest] using rev_ind.
  - discriminate.
  - eauto.
Qed.

(** X8.  In a run of [main] that completes, the seismic height spans
    [nsamples - 1] sample intervals, not [nsamples]:
    [hd = ips * ((nsamples - 1) * |dt| / 1000) / 1000], while the seismic
    width is [ntraces / tpi]. *)
Theorem main_seismic_size (traces : list trace) (cfg : config) (r : run) :
  main traces cfg = OK r ->
  wsd (size (run_geometry r)) == inject_Z (Z.of_nat (run_ntraces r)) / tpi cfg /\
  hd (size (run_geometry r))
    == ips cfg * (inject_Z (Z.of_nat (run_nsamples r - 1)) * Qabs (run_dt r) / 1000)
       / 1000.
Proof.
  intros H.
  destruct (main_steps traces cfg r H)
    as [Hn [Hd [Hnt [Htb [Hte [Hsz _]]]]]].
  destruct (time_base_ok _ _ _ Htb Hte) as [n [d [Hn' [Hd' [N1 D1]]]]].
  rewrite Hn in Hn'. injection Hn' as <-. rewrite Hd in Hd'. injection Hd' as <-.
  destruct (scan_headers_nonempty traces _ Hn) as [init [tr ->]].
  destruct (scan_headers_last init tr) as [Hn2 Hd2].
  rewrite Hn in Hn2. injection Hn2 as Hn2. rewrite Hd in Hd2. injection Hd2 as Hd2.
  assert (N1' : (1 <= number_of_samples_in_this_trace (header tr))%nat)
    by (rewrite <- Hn2; exact N1).
  assert (D1' : ~ sample_interval_in_ms_for_this_trace (header tr) == 0)
    by (rewrite <- Hd2; exact D1).
  destruct (time_base_span init tr N1' D1') as [tb [dur [Htb' [Hdur Edur]]]].
  rewrite Htb in Htb'. injection Htb' as <-.
  unfold seismic_dims in Hsz.
  apply bind_OK in Hsz. destruct Hsz as [sw [Hsw Hsz]].
  rewrite Hdur in Hsz. cbn [bind] in Hsz. injection Hsz as Hsz.
  rewrite <- Hsz. cbn [wsd hd]. split.
  - unfold truediv in Hsw. destruct (Qeq_bool (tpi cfg) 0); [discriminate|].
    injection Hsw as <-. rewrite Hnt. reflexivity.
  - rewrite Edur, Hn2, Hd2. reflexivity.
Qed.

Lemma main_seismic_size_witness :
  exists r,
    main two_traces sample_config = OK r /\
    wsd (size (run_geometry r))
      == inject_Z (Z.of_nat (run_ntraces r)) / tpi sample_config /\
    hd (size (run_geometry r))
      == ips sample_config
         * (inject_Z (Z.of_nat (run_nsamples r - 1)) * Qabs (run_dt r) / 1000)
         / 1000.
Proof.
  assert (H : exists r, main two_traces sample_config = OK r)
    by (eexists; reflexivity).
  destruct H as [r H]. exists r. split; [exact H|].
  apply (main_seismic_size two_traces sample_config r H).
Defined.

(** ** [wigplot]: outcomes, strides of either sign, zero normalization *)

Lemma percentile_out_of_range (a : list Q) (q : Q) :
  ~ (0 <= q /\ q <= 100) -> Np.percentile a q = Raise ValueError.
Proof.
  intros H. unfold Np.percentile.
  destruct (Qle_bool 0 q) eqn:E0; [|reflexivity].
  destruct (Qle_bool q 100) eqn:E1; [|reflexivity].
  exfalso. apply H. split; now apply Qle_bool_iff.
Qed.

(** Every wiggle is drawn against the time base. *)
Lemma wigplot_time_axis (data : list (list Q)) (tbase : list Q)
  (ntraces : nat) (skip : Z) (perc gain : Q) (ws : list wiggle) :
  wigplot data tbase ntraces skip perc gain = OK ws ->
  Forall (fun wg => line_y wg = tbase /\ fill_y wg = tbase) ws.
Proof.
  intros H. unfold wigplot in H.
  apply bind_OK in H. destruct H as [sc [Hsc H]].
  apply bind_OK in H. destruct H as [wigdata [Hwd H]].
  apply bind_OK in H. destruct H as [xpos [Hxp H]].
  injection H as <-.
  apply Forall_forall. intros wg Hin.
  apply in_map_iff in Hin. destruct Hin as [[x trace] [<- _]].
  split; reflexivity.
Qed.

(** X9.  On non-empty data whose traces are as long as the time base (as
    [main] builds them), [wigplot] completes exactly when the percentile
    lies in [0, 100] and the stride is not zero, and then every [plot] and
    [fill_betweenx] call receives as many abscissae as times; otherwise it
    raises [ValueError], from [np.percentile] or from the slice. *)
Theorem wigplot_outcome (data : list (list Q)) (tbase : list Q) (ntraces : nat)
  (skip : Z) (perc gain : Q) :
  Np.ravel data <> [] ->
  Forall (fun col => length col = length tbase) data ->
  ((0 <= perc /\ perc <= 100) /\ skip <> 0%Z ->
     exists ws,
       wigplot data tbase ntraces skip perc gain = OK ws /\
       Forall (fun wg => length (line_x wg) = length (line_y wg) /\
                         length (fill_x1 wg) = length (fill_y wg)) ws) /\
  (~ ((0 <= perc /\ perc <= 100) /\ skip <> 0%Z) ->
     wigplot data tbase ntraces skip perc gain = Raise ValueError).
Proof.
  intros Hne Hshape. split.
  - intros [[H0 H1] Hs].
    destruct (percentile_finite (Np.ravel data) perc Hne H0 H1) as [sc Hsc].
    assert (Hws : exists ws, wigplot data tbase ntraces skip perc gain = OK ws).
    { unfold wigplot. rewrite Hsc. cbn [bind]. unfold Np.slice_step.
      apply Z.eqb_neq in Hs. rewrite Hs.
      destruct (0 <? skip)%Z; cbn [bind]; eauto. }
    destruct Hws as [ws Hws]. exists ws. split; [exact Hws|].
    destruct (wigplot_normalization _ _ _ _ _ _ _ Hws) as [sc' [_ Hx]].
    pose proof (wigplot_time_axis _ _ _ _ _ _ _ Hws) as Hy.
    rewrite Forall_forall in Hx, Hy, Hshape. apply Forall_forall. intros wg Hin.
    destruct (Hx wg Hin) as [trace [Ht [E1 E2]]].
    destruct (Hy wg Hin) as [E3 E4].
    rewrite E2, E1, E3, E4. unfold normalized. rewrite length_map.
    split; apply Hshape; exact Ht.
  - intros Hn. unfold wigplot.
    destruct (Qlt_le_dec perc 0) as [L|L].
    { rewrite percentile_out_of_range by (intros [A B]; qlra). reflexivity. }
    destruct (Qlt_le_dec 100 perc) as [U|U].
    { rewrite percentile_out_of_range by (intros [A B]; qlra). reflexivity. }
    destruct (percentile_finite (Np.ravel data) perc Hne L U) as [sc Hsc].
    rewrite Hsc. cbn [bind]. unfold Np.slice_step.
    destruct (skip =? 0)%Z eqn:E; [reflexivity|].
    exfalso. apply Hn. split; [split; assumption|]. now apply Z.eqb_neq.
Qed.

(** The column index shown by the [j]-th wiggle for a stride [skip] over
    [n] columns: forward from column 0, or backward from column [n - 1]. *)
Lemma stride_rev_as_map {A : Type} (d : A) (l : list A) (k : nat) :
  (1 <= k)%nat ->
  Np.stride_aux k (length l) (rev l)
  = map (fun j => nth (length l - 1 - j * k) l d)
        (seq 0 ((length l + k - 1) / k)).
Proof.
  intros Hk. rewrite <- (length_rev l) at 1.
  rewrite (stride_as_map d (rev l) k Hk), length_rev.
  apply map_ext_in. intros j Hj. apply in_seq in Hj.
  assert (Hb : (j * k < length l)%nat)
    by (apply div_ceil_bound with (k := k); lia).
  rewrite rev_nth by exact Hb. f_equal. lia.
Qed.

(** X10.  When [ntraces] is the number of columns, every wiggle is drawn
    around the column index of the trace it shows, whatever the sign of the
    stride: a positive stride walks the columns 0, skip, 2*skip, ..., a
    negative one walks them backward from the last column. *)
Theorem wigplot_column_index (data : list (list Q)) (tbase : list Q) (skip : Z)
  (perc gain : Q) (ws : list wiggle) :
  wigplot data tbase (length data) skip perc gain = OK ws ->
  let n := length data in
  let k := Z.to_nat (Z.abs skip) in
  let count := ((n + k - 1) / k)%nat in
  let column := fun j => if (0 <? skip)%Z then (j * k)%nat else (n - 1 - j * k)%nat in
  exists sc,
    Np.percentile (Np.ravel data) perc = OK sc /\
    length ws = count /\
    map fill_x2 ws = map (fun j => Z.of_nat (column j)) (seq 0 count) /\
    forall j d, (j < count)%nat ->
      (column j < n)%nat /\
      line_x (nth j ws d)
      = normalized gain sc (Z.of_nat (column j)) (nth (column j) data []).
Proof.
  intros H n k count column. unfold wigplot in H.
  apply bind_OK in H. destruct H as [sc [Hsc H]].
  apply bind_OK in H. destruct H as [wigdata [Hwd H]].
  apply bind_OK in H. destruct H as [xpos [Hxp H]].
  injection H as Hws.
  unfold Np.slice_step in Hwd, Hxp.
  destruct (skip =? 0)%Z eqn:E0; [discriminate|]. apply Z.eqb_neq in E0.
  assert (Hk : (1 <= k)%nat) by (unfold k; lia).
  pose (mk := fun j : nat =>
    mkWiggle (normalized gain sc (Z.of_nat (column j)) (nth (column j) data [])) tbase
             tbase (normalized gain sc (Z.of_nat (column j)) (nth (column j) data []))
             (Z.of_nat (column j))).
  assert (Hcol : forall j, (j < count)%nat -> (column j < n)%nat).
  { intros j Hj. pose proof (div_ceil_bound n k j Hk Hj) as Hb.
    unfold column. destruct (0 <? skip)%Z; lia. }
  assert (Hpairs : combine xpos wigdata
                   = map (fun j => (Z.of_nat (column j), nth (column j) data []))
                         (seq 0 count)).
  { unfold column. destruct (0 <? skip)%Z eqn:Ep.
    - apply Z.ltb_lt in Ep.
      replace (Z.to_nat skip) with k in Hwd, Hxp by (unfold k; lia).
      injection Hwd as <-. injection Hxp as <-.
      rewrite stride_arange by exact Hk.
      rewrite (stride_as_map [] data k) by exact Hk.
      apply combine_map_same.
    - apply Z.ltb_ge in Ep.
      replace (Z.to_nat (- skip)) with k in Hwd, Hxp by (unfold k; lia).
      injection Hwd as <-. injection Hxp as <-.
      rewrite (stride_rev_as_map 0%Z (Np.arange n)) by exact Hk.
      rewrite (stride_rev_as_map [] data k) by exact Hk.
      rewrite arange_length. fold n count.
      rewrite <- combine_map_same. f_equal.
      apply map_ext_in. intros j Hj. apply in_seq in Hj.
      apply arange_nth.
      pose proof (div_ceil_bound n k j Hk) as Hb. lia. }
  rewrite Hpairs, map_map in Hws.
  assert (Hmk : ws = map mk (seq 0 count)) by (rewrite <- Hws; reflexivity).
  rewrite Hmk. clear Hws Hmk.
  exists sc. split; [exact Hsc|].
  split; [now rewrite length_map, length_seq|].
  split; [rewrite map_map; reflexivity|].
  intros j d Hj. split; [apply Hcol; exact Hj|].
  rewrite (nth_indep _ d (mk 0%nat)) by (now rewrite length_map, length_seq).
  rewrite (map_nth mk), seq_nth by exact Hj. reflexivity.
Qed.

Lemma wigplot_column_index_witness :
  exists ws,
    wigplot ten_traces [0; 1; 2] (length ten_traces) (-3) 98 1 = OK ws /\
    let n := length ten_traces in
    let k := Z.to_nat (Z.abs (-3)) in
    let count := ((n + k - 1) / k)%nat in
    let column :=
      fun j => if (0 <? -3)%Z then (j * k)%nat else (n - 1 - j * k)%nat in
    exists sc,
      Np.percentile (Np.ravel ten_traces) 98 = OK sc /\
      length ws = count /\
      map fill_x2 ws = map (fun j => Z.of_nat (column j)) (seq 0 count) /\
      forall j d, (j < count)%nat ->
        (column j < n)%nat /\
        line_x (nth j ws d)
        = normalized 1 sc (Z.of_nat (column j)) (nth (column j) ten_traces []).
Proof.
  eexists. split; [vm_compute; reflexivity|].
  apply (wigplot_column_index ten_traces [0; 1; 2] (-3) 98 1).
  vm_compute. reflexivity.
Defined.

Lemma normalized_by_zero (gain c : Q) (x : Z) (trace : list Q) :
  c == 0 ->
  Forall (fun v => forall q, v <> Np.Fin q) (normalized gain (Np.Fin c) x trace).
Proof.
  intros Ec. unfold normalized. apply Forall_forall. intros v Hv.
  apply in_map_iff in Hv. destruct Hv as [a [<- _]].
  unfold Np.div. rewrite (Qeq_bool_true _ _ Ec).
  destruct (Qeq_bool (gain * a) 0); [cbn; discriminate|].
  destruct (Qle_bool 0 (gain * a)); cbn; discriminate.
Qed.

(** X11.  A zero normalization factor is not guarded: when the percentile
    of the data is zero, [wigplot] still completes, and every abscissa it
    hands to the draw surface is infinite or NaN. *)
Theorem wigplot_zero_normalization (data : list (list Q)) (tbase : list Q)
  (ntraces : nat) (skip : Z) (perc gain c : Q) :
  Np.percentile (Np.ravel data) perc = OK (Np.Fin c) ->
  c == 0 ->
  skip <> 0%Z ->
  exists ws,
    wigplot data tbase ntraces skip perc gain = OK ws /\
    Forall (fun wg => Forall (fun v => forall q, v <> Np.Fin q) (line_x wg) /\
                      fill_x1 wg = line_x wg) ws.
Proof.
  intros Hsc Ec Hs.
  assert (Hws : exists ws, wigplot data tbase ntraces skip perc gain = OK ws).
  { unfold wigplot. rewrite Hsc. cbn [bind]. unfold Np.slice_step.
    apply Z.eqb_neq in Hs. rewrite Hs.
    destruct (0 <? skip)%Z; cbn [bind]; eauto. }
  destruct Hws as [ws Hws]. exists ws. split; [exact Hws|].
  destruct (wigplot_normalization _ _ _ _ _ _ _ Hws) as [sc [Hsc' Hall]].
  rewrite Hsc in Hsc'. injection Hsc' as <-.
  eapply Forall_impl; [|exact Hall].
  intros wg [trace [_ [E1 E2]]]. split; [|exact E2].
  rewrite E1. apply normalized_by_zero. exact Ec.
Qed.

Lemma wigplot_zero_normalization_witness :
  exists ws,
    wigplot [[0; 0]; [0; 0]; [0; 3]] [0; 1] 3 1 50 1 = OK ws /\
    Forall (fun wg => Forall (fun v => forall q, v <> Np.Fin q) (line_x wg) /\
                      fill_x1 wg = line_x wg) ws.
Proof.
  apply (wigplot_zero_normalization [[0; 0]; [0; 0]; [0; 3]] [0; 1] 3 1 50 1 (0 # 100)).
  - vm_compute. reflexivity.
  - reflexivity.
  - discriminate.
Defined.

(** ** Percentiles of sorted data *)

Lemma insert_sorted (x : Q) (l : list Q) :
  StronglySorted Qle l -> StronglySorted Qle (Np.insert x l).
Proof.
  intros H. induction H as [|y t Ht IH Hy]; cbn [Np.insert].
  - constructor; constructor.
  - destruct (Qle_bool x y) eqn:E.
    + apply Qle_bool_iff in E. constructor.
      * constructor; assumption.
      * constructor; [exact E|].
        eapply Forall_impl; [|exact Hy]. intros z Hz. eapply Qle_trans; eassumption.
    + apply Qle_bool_false in E. constructor; [exact IH|].
      apply insert_Forall; [apply Qlt_le_weak; exact E | exact Hy].
Qed.

Lemma sort_sorted (l : list Q) : StronglySorted Qle (Np.sort l).
Proof.
  induction l as [|x t IH]; cbn [Np.sort fold_right].
  - constructor.
  - apply insert_sorted. exact IH.
Qed.

Lemma insert_In (x y : Q) (l : list Q) :
  In y (Np.insert x l) <-> y = x \/ In y l.
Proof.
  induction l as [|z t IH]; cbn [Np.insert].
  - cbn. intuition.
  - destruct (Qle_bool x z); cbn [In]; [intuition|].
    rewrite IH. cbn [In]. intuition.
Qed.

Lemma sort_In (y : Q) (l : list Q) : In y (Np.sort l) <-> In y l.
Proof.
  induction l as [|x t IH]; cbn [Np.sort fold_right]; [reflexivity|].
  fold (Np.sort t). rewrite insert_In, IH. cbn [In]. intuition.
Qed.

Lemma sorted_nth_le (l : list Q) (d : Q) :
  StronglySorted Qle l ->
  forall i j, (i <= j)%nat -> (j < length l)%nat -> nth i l d <= nth j l d.
Proof.
  intros H. induction H as [|x t Ht IH Hx]; intros i j Hij Hj.
  - cbn in Hj. lia.
  - destruct j as [|j].
    + replace i with 0%nat by lia. apply Qle_refl.
    + destruct i as [|i]; cbn [nth].
      * rewrite Forall_forall in Hx. apply Hx. apply nth_In. cbn in Hj. lia.
      * apply IH; [lia | cbn in Hj; lia].
Qed.

(** The value that [np.percentile] interpolates at a virtual index [t] of
    the sorted data [s]. *)
Lemma percentile_value (a : list Q) (q : Q) :
  a <> [] -> 0 <= q -> q <= 100 ->
  let s := Np.sort a in
  let n := Z.of_nat (length a) in
  let t := inject_Z (n - 1) * (q / 100) in
  let lo := nth (Z.to_nat (Qfloor t)) s 0 in
  let hi := nth (Z.to_nat (Z.min (Qfloor t + 1) (n - 1))) s 0 in
  Np.percentile a q = OK (Np.Fin (lo + (hi - lo) * (t - inject_Z (Qfloor t)))) /\
  0 <= t /\ t <= inject_Z (n - 1) /\
  (0 <= Qfloor t)%Z /\ (Qfloor t <= n - 1)%Z /\
  lo <= hi.
Proof.
  intros Hne H0 H1 s n t lo hi.
  pose proof (sort_length a) as Hlen. fold s in Hlen.
  pose proof (sort_sorted a) as Hs. fold s in Hs.
  assert (Hn : (1 <= n)%Z).
  { unfold n. destruct a; [congruence | cbn [length]; lia]. }
  assert (Ht0 : 0 <= t).
  { unfold t. apply Qmult_le_0_compat.
    - change 0 with (inject_Z 0). rewrite <- Zle_Qle. lia.
    - apply Qle_shift_div_l; [reflexivity | qlra]. }
  assert (Ht1 : t <= inject_Z (n - 1)).
  { unfold t.
    assert (Hq : q / 100 <= 1) by (apply Qle_shift_div_r; [reflexivity | qlra]).
    assert (Hz : 0 <= inject_Z (n - 1))
      by (change 0 with (inject_Z 0); rewrite <- Zle_Qle; lia).
    assert (A : 0 <= inject_Z (n - 1) * (1 - q / 100))
      by (apply Qmult_le_0_compat; qlra).
    qlra. }
  assert (Hf0 : (0 <= Qfloor t)%Z).
  { change 0%Z with (Qfloor (inject_Z 0)). apply Qfloor_resp_le. exact Ht0. }
  assert (Hf1 : (Qfloor t <= n - 1)%Z).
  { rewrite <- (Qfloor_Z (n - 1)). apply Qfloor_resp_le. exact Ht1. }
  split; [|split; [exact Ht0|]; split; [exact Ht1|]; split; [exact Hf0|];
           split; [exact Hf1|]].
  - unfold Np.percentile.
    pose proof H0 as B0. pose proof H1 as B1.
    apply Qle_bool_iff in B0. apply Qle_bool_iff in B1. rewrite B0, B1.
    cbn [negb andb]. fold s.
    destruct s as [|s0 s'] eqn:Es.
    + destruct a; [congruence | cbn in Hlen; discriminate].
    + cbv beta iota zeta. rewrite Hlen. fold n t.
      assert (Ea : (Z.to_nat (Qfloor t) < length (s0 :: s'))%nat)
        by (rewrite Hlen; unfold n in Hf1; lia).
      assert (Eb : (Z.to_nat (Z.min (Qfloor t + 1) (n - 1)) < length (s0 :: s'))%nat)
        by (rewrite Hlen; unfold n in *; lia).
      unfold lo, hi.
      rewrite (nth_indep _ 0 s0 Ea), (nth_indep _ 0 s0 Eb). reflexivity.
  - unfold lo, hi. apply sorted_nth_le; [exact Hs | lia |].
    rewrite Hlen. unfold n in *. lia.
Qed.

(** Percentiles do not decrease with the percentage. *)
Lemma percentile_monotone (a : list Q) (q1 q2 : Q) :
  a <> [] -> 0 <= q1 -> q1 <= q2 -> q2 <= 100 ->
  exists c1 c2,
    Np.percentile a q1 = OK (Np.Fin c1) /\
    Np.percentile a q2 = OK (Np.Fin c2) /\
    c1 <= c2.
Proof.
  intros Hne H0 H12 H1.
  destruct (percentile_value a q1 Hne H0 ltac:(qlra))
    as [E1 [T10 [T11 [F10 [F11 L1]]]]].
  destruct (percentile_value a q2 Hne ltac:(qlra) H1)
    as [E2 [T20 [T21 [F20 [F21 L2]]]]].
  pose proof (sort_sorted a) as Hs.
  pose proof (sort_length a) as Hlen.
  set (s := Np.sort a) in *.
  set (n := Z.of_nat (length a)) in *.
  set (t1 := inject_Z (n - 1) * (q1 / 100)) in *.
  set (t2 := inject_Z (n - 1) * (q2 / 100)) in *.
  assert (Ht : t1 <= t2).
  { unfold t1, t2.
    assert (Hz : 0 <= inject_Z (n - 1))
      by (change 0 with (inject_Z 0); rewrite <- Zle_Qle; unfold n; lia).
    assert (Hq : 0 <= q2 / 100 - q1 / 100).
    { setoid_replace (q2 / 100 - q1 / 100) with ((q2 - q1) / 100) by field.
      apply Qle_shift_div_l; [reflexivity | qlra]. }
    assert (A : 0 <= inject_Z (n - 1) * (q2 / 100 - q1 / 100))
      by (apply Qmult_le_0_compat; assumption).
    qlra. }
  pose proof (Qfloor_resp_le _ _ Ht) as Hf.
  pose proof (Qfloor_le t1) as G10. pose proof (Qlt_floor t1) as G11.
  pose proof (Qfloor_le t2) as G20. pose proof (Qlt_floor t2) as G21.
  rewrite inject_Z_plus in G11, G21. change (inject_Z 1) with 1 in G11, G21.
  set (f1 := Qfloor t1) in *. set (f2 := Qfloor t2) in *.
  set (lo1 := nth (Z.to_nat f1) s 0) in *.
  set (hi1 := nth (Z.to_nat (Z.min (f1 + 1) (n - 1))) s 0) in *.
  set (lo2 := nth (Z.to_nat f2) s 0) in *.
  set (hi2 := nth (Z.to_nat (Z.min (f2 + 1) (n - 1))) s 0) in *.
  eexists. eexists. split; [exact E1|]. split; [exact E2|].
  destruct (Z.eq_dec f1 f2) as [Ef|Ef].
  - assert (Elo : lo1 = lo2) by (unfold lo1, lo2; now rewrite Ef).
    assert (Ehi : hi1 = hi2) by (unfold hi1, hi2; now rewrite Ef).
    rewrite Elo, Ehi, Ef.
    assert (A : 0 <= (hi2 - lo2) * (t2 - t1)) by (apply Qmult_le_0_compat; qlra).
    qlra.
  - assert (Hmid : hi1 <= lo2).
    { unfold hi1, lo2. apply sorted_nth_le; [exact Hs | lia |].
      rewrite Hlen. unfold n in *. lia. }
    assert (A1 : 0 <= (hi1 - lo1) * (1 - (t1 - inject_Z f1)))
      by (apply Qmult_le_0_compat; qlra).
    assert (A2 : 0 <= (hi2 - lo2) * (t2 - inject_Z f2))
      by (apply Qmult_le_0_compat; qlra).
    qlra.
Qed.

(** X12.  The normalization factor of [wigplot] under its default
    percentile never exceeds the clip value that [main] reports: on
    non-empty data the 98th percentile is at most the 99th, and both lie
    between the least and the greatest amplitude. *)
Theorem normalization_below_clip (data : list (list Q)) :
  Np.ravel data <> [] ->
  exists sc c ma mi,
    Np.percentile (Np.ravel data) wigplot_default_perc = OK (Np.Fin sc) /\
    clip_value data = OK (Np.Fin c) /\
    Np.amax (Np.ravel data) = OK ma /\
    Np.amin (Np.ravel data) = OK mi /\
    mi <= sc /\ sc <= c /\ c <= ma.
Proof.
  intros Hne.
  destruct (percentile_monotone (Np.ravel data) 98 99 Hne)
    as [sc [c [Hsc [Hc Hle]]]]; try discriminate.
  destruct (amax_nonempty _ Hne) as [ma Hma].
  destruct (amin_nonempty _ Hne) as [mi Hmi].
  destruct (amax_spec _ _ Hma) as [Hup _].
  destruct (amin_spec _ _ Hmi) as [Hdn _].
  destruct (percentile_bounds (Np.ravel data) 98 mi ma Hne)
    as [sc' [Hsc' [B0 _]]]; try discriminate.
  { apply Forall_and_both; assumption. }
  destruct (percentile_bounds (Np.ravel data) 99 mi ma Hne)
    as [c' [Hc' [_ B1]]]; try discriminate.
  { apply Forall_and_both; assumption. }
  rewrite Hsc in Hsc'. injection Hsc' as <-.
  rewrite Hc in Hc'. injection Hc' as <-.
  exists sc, c, ma, mi. unfold wigplot_default_perc, clip_value.
  repeat (split; [assumption|]). assumption.
Qed.

Lemma normalization_below_clip_witness :
  exists sc c ma mi,
    Np.percentile (Np.ravel [[0; 1; 2; 3]; [4; 5; 6; 100]]) wigplot_default_perc
      = OK (Np.Fin sc) /\
    clip_value [[0; 1; 2; 3]; [4; 5; 6; 100]] = OK (Np.Fin c) /\
    Np.amax (Np.ravel [[0; 1; 2; 3]; [4; 5; 6; 100]]) = OK ma /\
    Np.amin (Np.ravel [[0; 1; 2; 3]; [4; 5; 6; 100]]) = OK mi /\
    mi <= sc /\ sc <= c /\ c <= ma.
Proof.
  apply (normalization_below_clip [[0; 1; 2; 3]; [4; 5; 6; 100]]).
  simpl. discriminate.
Defined.

(** X13.  At its extreme settings the percentile of [wigplot] is an
    extreme of the data: [perc = 100] normalizes by the greatest amplitude
    and [perc = 0] by the least. *)
Theorem percentile_extremes (a : list Q) :
  a <> [] ->
  exists c0 c100 ma mi,
    Np.percentile a 0 = OK (Np.Fin c0) /\
    Np.percentile a 100 = OK (Np.Fin c100) /\
    Np.amax a = OK ma /\ Np.amin a = OK mi /\
    c0 == mi /\ c100 == ma.
Proof.
  intros Hne.
  destruct (percentile_value a 0 Hne) as [E0 _]; try discriminate.
  destruct (percentile_value a 100 Hne) as [E1 _]; try discriminate.
  pose proof (sort_sorted a) as Hs.
  pose proof (sort_length a) as Hlen.
  destruct (amax_nonempty _ Hne) as [ma Hma].
  destruct (amin_nonempty _ Hne) as [mi Hmi].
  set (s := Np.sort a) in *. set (n := Z.of_nat (length a)) in *.
  assert (Hn : (1 <= n)%Z).
  { unfold n. destruct a; [congruence | cbn [length]; lia]. }
  assert (T0 : inject_Z (n - 1) * (0 / 100) == inject_Z 0).
  { setoid_replace (0 / 100) with 0 by reflexivity. rewrite Qmult_0_r. reflexivity. }
  assert (T1 : inject_Z (n - 1) * (100 / 100) == inject_Z (n - 1)).
  { setoid_replace (100 / 100) with 1 by reflexivity. ring. }
  pose proof (Qfloor_comp _ _ T0) as F0. rewrite Qfloor_Z in F0.
  pose proof (Qfloor_comp _ _ T1) as F1. rewrite Qfloor_Z in F1.
  rewrite F0 in E0. rewrite F1 in E1.
  assert (Hall : forall x, In x a -> exists i, (i < length s)%nat /\ nth i s 0 = x).
  { intros x Hx. apply (In_nth s x 0). unfold s. apply sort_In. exact Hx. }
  eexists. eexists. exists ma, mi.
  split; [exact E0|]. split; [exact E1|]. split; [exact Hma|]. split; [exact Hmi|].
  split.
  - rewrite T0. setoid_replace (inject_Z 0 - inject_Z 0) with 0 by ring.
    rewrite Qmult_0_r, Qplus_0_r. symmetry.
    apply (amin_unique a _ mi); [| |exact Hmi].
    + apply sort_In. fold s. apply nth_In. rewrite Hlen. unfold n in Hn. lia.
    + apply Forall_forall. intros x Hx. destruct (Hall x Hx) as [i [Hi <-]].
      apply sorted_nth_le; [exact Hs | lia | exact Hi].
  - rewrite T1. setoid_replace (inject_Z (n - 1) - inject_Z (n - 1)) with 0 by ring.
    rewrite Qmult_0_r, Qplus_0_r. symmetry.
    apply (amax_unique a _ ma); [| |exact Hma].
    + apply sort_In. fold s. apply nth_In. rewrite Hlen. unfold n in Hn. lia.
    + apply Forall_forall. intros x Hx. destruct (Hall x Hx) as [i [Hi <-]].
      apply sorted_nth_le; [exact Hs | |]; rewrite Hlen in *; unfold n in *; lia.
Qed.

Lemma percentile_extremes_witness :
  exists c0 c100 ma mi,
    Np.percentile [3; -1; 12; 5] 0 = OK (Np.Fin c0) /\
    Np.percentile [3; -1; 12; 5] 100 = OK (Np.Fin c100) /\
    Np.amax [3; -1; 12; 5] = OK ma /\ Np.amin [3; -1; 12; 5] = OK mi /\
    c0 == mi /\ c100 == ma.
Proof.
  apply (percentile_extremes [3; -1; 12; 5]). discriminate.
Defined.

(** ** [plot_spectrum]: outcomes, short traces, the first bin *)

Lemma fftfreq_zero (n : nat) (d : Q) :
  n = 0%nat \/ d == 0 -> Np.fftfreq n d = Raise ZeroDivisionError.
Proof.
  intros H. unfold Np.fftfreq. rewrite truediv_zero; [reflexivity|].
  destruct H as [-> | ->]; [cbn; ring | ring].
Qed.

Lemma micro_zero_iff (dt : Q) : dt / 10 ^ 6 == 0 <-> dt == 0.
Proof. apply Qdiv_zero_iff. discriminate. Qed.

(** A spectrum that is plotted has [n // 4] entries in both series. *)
Lemma plot_spectrum_series_lengths (c0 trace : list Q) (rest : list (list Q))
  (dt : Q) :
  (1 <= length trace)%nat -> ~ dt == 0 ->
  exists sp,
    plot_spectrum (c0 :: trace :: rest) dt = OK sp /\
    length (spec_x sp) = (length trace / 4)%nat /\
    length (spec_y sp) = (length trace / 4)%nat.
Proof.
  intros Hn Hdt.
  destruct (fftfreq_ok (length trace) (dt / 10 ^ 6) Hn)
    as [faxis [Hf [Hlen _]]].
  { rewrite micro_zero_iff. exact Hdt. }
  eexists. split; [apply (plot_spectrum_ok c0 trace rest dt faxis Hf)|].
  cbn [spec_x spec_y]. rewrite Hlen.
  assert (Hq : (length trace / 4 <= length trace)%nat)
    by (apply Nat.Div0.div_le_upper_bound; lia).
  split; [rewrite length_firstn; lia|].
  rewrite length_map, length_firstn, fft_abs_length, length_map. lia.
Qed.

(** X14.  [plot_spectrum] needs a second trace, a sample in it and a
    non-zero sample interval: with fewer than two traces it raises
    [IndexError]; on an empty second trace [fft] raises [ValueError]; with
    a non-empty second trace and a zero interval the division inside
    [fftfreq] raises [ZeroDivisionError]; otherwise it completes, with
    [n // 4] entries in both series. *)
Theorem plot_spectrum_outcome (data : list (list Q)) (dt : Q) :
  ((length data < 2)%nat -> plot_spectrum data dt = Raise IndexError) /\
  (forall c0 trace rest, data = c0 :: trace :: rest ->
     (trace = [] -> plot_spectrum data dt = Raise ValueError) /\
     (trace <> [] -> dt == 0 ->
        plot_spectrum data dt = Raise ZeroDivisionError) /\
     (trace <> [] -> ~ dt == 0 ->
        exists sp,
          plot_spectrum data dt = OK sp /\
          length (spec_x sp) = (length trace / 4)%nat /\
          length (spec_y sp) = (length trace / 4)%nat)).
Proof.
  split.
  - intros H. destruct data as [|c0 [|c1 rest]]; try reflexivity.
    cbn in H. lia.
  - intros c0 trace rest ->. split; [|split].
    + intros ->. reflexivity.
    + intros Hne Hdt. unfold plot_spectrum. cbn [column1 bind].
      destruct trace as [|a t]; [congruence|].
      cbn [map Spectrum.abs_fft bind].
      rewrite fftfreq_zero; [reflexivity|].
      right. now apply micro_zero_iff.
    + intros Hne Hdt.
      apply plot_spectrum_series_lengths; [|exact Hdt].
      destruct trace; [congruence | cbn; lia].
Qed.

Lemma plot_spectrum_outcome_witness :
  ((length [[1; 2; 3; 4]; [5; 6; 7; 8]] < 2)%nat ->
     plot_spectrum [[1; 2; 3; 4]; [5; 6; 7; 8]] 1000 = Raise IndexError) /\
  (forall c0 trace rest, [[1; 2; 3; 4]; [5; 6; 7; 8]] = c0 :: trace :: rest ->
     (trace = [] ->
        plot_spectrum [[1; 2; 3; 4]; [5; 6; 7; 8]] 1000 = Raise ValueError) /\
     (trace <> [] -> 1000 == 0 ->
        plot_spectrum [[1; 2; 3; 4]; [5; 6; 7; 8]] 1000
        = Raise ZeroDivisionError) /\
     (trace <> [] -> ~ 1000 == 0 ->
        exists sp,
          plot_spectrum [[1; 2; 3; 4]; [5; 6; 7; 8]] 1000 = OK sp /\
          length (spec_x sp) = (length trace / 4)%nat /\
          length (spec_y sp) = (length trace / 4)%nat)).
Proof.
  apply (plot_spectrum_outcome [[1; 2; 3; 4]; [5; 6; 7; 8]] 1000).
Defined.

(** One input for each outcome. *)
Example plot_spectrum_outcomes :
  plot_spectrum [[1; 2; 3; 4]] 1000 = Raise IndexError /\
  plot_spectrum [[1; 2; 3; 4]; []] 1000 = Raise ValueError /\
  plot_spectrum [[1; 2; 3; 4]; [5; 6; 7; 8]] 0 = Raise ZeroDivisionError /\
  exists sp,
    plot_spectrum [[1; 2; 3; 4]; [5; 6; 7; 8]] 1000 = OK sp /\
    length (spec_x sp) = 1%nat /\ length (spec_y sp) = 1%nat.
Proof.
  split; [reflexivity|]. split; [reflexivity|]. split; [reflexivity|].
  destruct (plot_spectrum_series_lengths [1; 2; 3; 4] [5; 6; 7; 8] [] 1000)
    as [sp [Hsp [L1 L2]]]; [cbn; lia | discriminate |].
  exists sp. split; [exact Hsp|]. split; assumption.
Qed.

(** X15.  A second trace of fewer than four samples gives an empty
    spectrum: the first quarter of the bins is [n // 4 = 0] bins. *)
Theorem plot_spectrum_short_trace (c0 trace : list Q) (rest : list (list Q))
  (dt : Q) :
  (1 <= length trace)%nat -> (length trace < 4)%nat -> ~ dt == 0 ->
  plot_spectrum (c0 :: trace :: rest) dt = OK (mkSpectrum [] []).
Proof.
  intros H1 H4 Hdt.
  destruct (fftfreq_ok (length trace) (dt / 10 ^ 6) H1) as [faxis [Hf [Hlen _]]].
  { rewrite micro_zero_iff. exact Hdt. }
  rewrite (plot_spectrum_ok c0 trace rest dt faxis Hf), Hlen.
  rewrite (Nat.div_small (length trace) 4) by exact H4. reflexivity.
Qed.

Lemma plot_spectrum_short_trace_witness :
  plot_spectrum ([1; 2; 3] :: [4; 5; 6] :: []) 1000 = OK (mkSpectrum [] []).
Proof.
  apply (plot_spectrum_short_trace [1; 2; 3] [4; 5; 6] [] 1000).
  - simpl. lia.
  - simpl. lia.
  - discriminate.
Defined.

Lemma rsum_unit_terms (f : nat -> R) (s : list nat) (x : list R) :
  (forall j, f j = 1%R) -> length s = length x ->
  Spectrum.rsum (map (fun '(j, xj) => (xj * f j)%R) (combine s x))
  = Spectrum.rsum x.
Proof.
  intros Hf. revert s. induction x as [|v t IH]; intros s Hlen.
  - destruct s; reflexivity.
  - destruct s as [|j s]; [discriminate|].
    cbn [combine map Spectrum.rsum fold_right]. unfold Spectrum.rsum in IH.
    rewrite IH by (cbn in Hlen; lia). rewrite Hf. ring.
Qed.

Lemma rsum_null_terms (f : nat -> R) (s : list nat) (x : list R) :
  (forall j, f j = 0%R) ->
  Spectrum.rsum (map (fun '(j, xj) => (- (xj * f j))%R) (combine s x)) = 0%R.
Proof.
  intros Hf. revert s. induction x as [|v t IH]; intros s.
  - destruct s; reflexivity.
  - destruct s as [|j s]; [reflexivity|].
    cbn [combine map Spectrum.rsum fold_right]. unfold Spectrum.rsum in IH.
    rewrite IH, Hf. ring.
Qed.

Lemma dft_first_bin (x : list R) :
  Spectrum.dft_re x 0 = Spectrum.rsum x /\ Spectrum.dft_im x 0 = 0%R.
Proof.
  assert (E : forall j, (2 * PI * INR j * INR 0 / INR (length x))%R = 0%R).
  { intros j. cbn [INR]. unfold Rdiv. ring. }
  split.
  - unfold Spectrum.dft_re.
    apply (rsum_unit_terms (fun j => cos (2 * PI * INR j * INR 0 / INR (length x)))).
    + intros j. rewrite E. apply cos_0.
    + apply length_seq.
  - unfold Spectrum.dft_im.
    apply (rsum_null_terms (fun j => sin (2 * PI * INR j * INR 0 / INR (length x)))).
    intros j. rewrite E. apply sin_0.
Qed.

(** X16.  With at least four samples in the second trace, the spectrum
    starts at frequency zero, and its first power is [log10] of the
    absolute value of the sum of the samples (the zero-frequency bin of the
    transform); it is minus infinity exactly when the samples sum to
    zero. *)
Theorem plot_spectrum_first_bin (c0 trace : list Q) (rest : list (list Q))
  (dt : Q) :
  (4 <= length trace)%nat -> ~ dt == 0 ->
  exists sp,
    plot_spectrum (c0 :: trace :: rest) dt = OK sp /\
    nth 0 (spec_x sp) 1 == 0 /\
    nth 0 (spec_y sp) (Spectrum.LogFin 0)
      = Spectrum.log10 (Rabs (Spectrum.rsum (map Q2R trace))) /\
    (nth 0 (spec_y sp) (Spectrum.LogFin 0) = Spectrum.LogNInf <->
       Spectrum.rsum (map Q2R trace) = 0%R).
Proof.
  intros H4 Hdt.
  assert (Hd : ~ dt / 10 ^ 6 == 0) by (rewrite micro_zero_iff; exact Hdt).
  destruct (fftfreq_ok (length trace) (dt / 10 ^ 6)) as [faxis [Hf [Hlen Hnth]]];
    [lia | exact Hd |].
  assert (Hq : (1 <= length trace / 4)%nat).
  { apply Nat.div_le_lower_bound; lia. }
  assert (Hy : nth 0 (map Spectrum.log10
                          (firstn (length trace / 4)
                                  (Spectrum.fft_abs (map Q2R trace))))
                   (Spectrum.LogFin 0)
               = Spectrum.log10 (Rabs (Spectrum.rsum (map Q2R trace)))).
  { destruct (length trace / 4)%nat as [|q] eqn:Eq; [lia|].
    pose proof (fft_abs_length (map Q2R trace)) as Hl. rewrite length_map in Hl.
    destruct (Spectrum.fft_abs (map Q2R trace)) as [|y ys] eqn:Ey.
    - cbn in Hl. lia.
    - cbn [firstn map nth].
      assert (E : y = nth 0 (Spectrum.fft_abs (map Q2R trace)) 0%R)
        by (rewrite Ey; reflexivity).
      rewrite fft_abs_nth in E by (rewrite length_map; lia).
      destruct (dft_first_bin (map Q2R trace)) as [Ere Eim].
      rewrite Ere, Eim in E. rewrite E.
      replace (Spectrum.rsum (map Q2R trace) * Spectrum.rsum (map Q2R trace) + 0 * 0)%R
        with (Rsqr (Spectrum.rsum (map Q2R trace))) by (unfold Rsqr; ring).
      rewrite sqrt_Rsqr_abs. reflexivity. }
  eexists. split; [apply (plot_spectrum_ok c0 trace rest dt faxis Hf)|].
  cbn [spec_x spec_y]. rewrite Hlen. split; [|split].
  - rewrite nth_firstn.
    replace (0 <? length trace / 4)%nat with true
      by (symmetry; apply Nat.ltb_lt; lia).
    rewrite (nth_indep _ 1 0) by lia.
    rewrite Hnth by lia. cbn [Z.of_nat]. unfold Qdiv. ring.
  - exact Hy.
  - rewrite Hy. unfold Spectrum.log10.
    destruct (Req_dec_T (Rabs (Spectrum.rsum (map Q2R trace))) 0) as [E|E].
    + split; [intros _|reflexivity].
      destruct (Req_dec (Spectrum.rsum (map Q2R trace)) 0) as [Z|NZ]; [exact Z|].
      apply Rabs_no_R0 in NZ. contradiction.
    + split; [discriminate|]. intros Z. rewrite Z, Rabs_R0 in E. contradiction.
Qed.

Lemma plot_spectrum_first_bin_witness :
  exists sp,
    plot_spectrum ([1; 1; 1; 1] :: [1; -1; 2; -2] :: []) 1000 = OK sp /\
    nth 0 (spec_x sp) 1 == 0 /\
    nth 0 (spec_y sp) (Spectrum.LogFin 0)
      = Spectrum.log10 (Rabs (Spectrum.rsum (map Q2R [1; -1; 2; -2]))) /\
    (nth 0 (spec_y sp) (Spectrum.LogFin 0) = Spectrum.LogNInf <->
       Spectrum.rsum (map Q2R [1; -1; 2; -2]) = 0%R).
Proof.
  apply (plot_spectrum_first_bin [1; 1; 1; 1] [1; -1; 2; -2] [] 1000).
  - simpl. lia.
  - discriminate.
Defined.

(** ** The panels of the page *)

(** A layout that is returned, in closed form. *)
Lemma layout_inversion (ntraces : nat) (tbase : list Q) (cfg : config)
  (g : geometry) :
  layout ntraces tbase cfg = OK g ->
  ~ w (figsize g) == 0 /\
  mih <= h (figsize g) /\
  w (figsize g) == wsd (size g) + (17 # 2) /\
  ssl (figsize g) = (ml + wsd (size g) + mm) / w (figsize g) /\
  panels g = add_axes (wsd (size g)) (figsize g) /\
  (~ tpi cfg == 0 /\ wsd (size g) = inject_Z (Z.of_nat ntraces) / tpi cfg).
Proof.
  intros H. unfold layout in H.
  apply bind_OK in H. destruct H as [sz [Hsz H]].
  apply bind_OK in H. destruct H as [pg [Hpg H]].
  injection H as <-. cbn [figsize size panels].
  unfold page_dims in Hpg.
  apply bind_OK in Hpg. destruct Hpg as [dur [Hdur Hpg]].
  apply bind_OK in Hpg. destruct Hpg as [s [Hs Hpg]].
  injection Hpg as <-. cbn [w h ssl].
  unfold truediv in Hs.
  destruct (Qeq_bool (ml + wsd sz + wsl + mr + mm) 0) eqn:E; [discriminate|].
  apply Qeq_bool_neq in E. injection Hs as <-.
  split; [exact E|]. split; [apply py_max_lower|].
  split; [apply page_width|]. split; [reflexivity|]. split; [reflexivity|].
  unfold seismic_dims in Hsz.
  apply bind_OK in Hsz. destruct Hsz as [sw [Hsw Hsz]].
  apply bind_OK in Hsz. destruct Hsz as [dur' [_ Hsz]].
  injection Hsz as <-. cbn [wsd].
  unfold truediv in Hsw. destruct (Qeq_bool (tpi cfg) 0) eqn:Et; [discriminate|].
  apply Qeq_bool_neq in Et. injection Hsw as <-. split; [exact Et | reflexivity].
Qed.

(** X17.  In every layout the side-label column starts one middle margin
    (0.5 in) right of the seismic panel and ends one right margin (1 in)
    before the page edge; title and header fill its width of 6 in, and
    histogram and spectrum share one abscissa and one width inside it. *)
Theorem side_label_column (ntraces : nat) (tbase : list Q) (cfg : config)
  (g : geometry) :
  layout ntraces tbase cfg = OK g ->
  let pw := w (figsize g) in
  let p := panels g in
  rx (ax p) + rw (ax p) + (1 # 2) / pw == ssl (figsize g) /\
  rx (title_ax p) = ssl (figsize g) /\
  rx (head_ax p) = ssl (figsize g) /\
  rw (title_ax p) * pw == 6 /\
  rw (head_ax p) * pw == 6 /\
  ssl (figsize g) + rw (head_ax p) + 1 / pw == 1 /\
  rx (hist_ax p) = rx (spec_ax p) /\
  rw (hist_ax p) = rw (spec_ax p) /\
  rx (hist_ax p) == ssl (figsize g) + (1 # 20) /\
  rx (hist_ax p) + rw (hist_ax p) == 1 - 1 / pw - (1 # 20).
Proof.
  intros H. destruct (layout_inversion _ _ _ _ H) as [Hw [Hh [Ew [Es [Ep _]]]]].
  cbv zeta. rewrite Ep. cbn [add_axes ax title_ax head_ax hist_ax spec_ax rx rw].
  rewrite Es. set (sw := wsd (size g)) in *. set (pw := w (figsize g)) in *.
  unfold ml, mm, mr, wsl, m.
  repeat split; try reflexivity; field_simplify_eq; try exact Hw; rewrite ?Ew; ring.
Qed.

Lemma side_label_column_witness :
  exists g,
    layout 100 [0; 2000] sample_config = OK g /\
    let pw := w (figsize g) in
    let p := panels g in
    rx (ax p) + rw (ax p) + (1 # 2) / pw == ssl (figsize g) /\
    rx (title_ax p) = ssl (figsize g) /\
    rx (head_ax p) = ssl (figsize g) /\
    rw (title_ax p) * pw == 6 /\
    rw (head_ax p) * pw == 6 /\
    ssl (figsize g) + rw (head_ax p) + 1 / pw == 1 /\
    rx (hist_ax p) = rx (spec_ax p) /\
    rw (hist_ax p) = rw (spec_ax p) /\
    rx (hist_ax p) == ssl (figsize g) + (1 # 20) /\
    rx (hist_ax p) + rw (hist_ax p) == 1 - 1 / pw - (1 # 20).
Proof.
  eexists. split; [vm_compute; reflexivity|].
  apply (side_label_column 100 [0; 2000] sample_config).
  vm_compute. reflexivity.
Defined.

(** X18.  In every layout the panels of the side-label column are stacked
    without overlap: the spectrum sits above the bottom of the page, the
    histogram 0.05 above the spectrum, the header above the histogram (the
    10 in minimum page height makes room for it), the title directly on top
    of the header, and the title ends below the top of the page.  The
    seismic panel reaches from the bottom margin up to the top of the
    header. *)
Theorem panel_stacking (ntraces : nat) (tbase : list Q) (cfg : config)
  (g : geometry) :
  layout ntraces tbase cfg = OK g ->
  let p := panels g in
  0 < ry (spec_ax p) /\
  ry (spec_ax p) + rh (spec_ax p) + (1 # 20) == ry (hist_ax p) /\
  ry (hist_ax p) + rh (hist_ax p) < ry (head_ax p) /\
  ry (head_ax p) + rh (head_ax p) == ry (title_ax p) /\
  ry (title_ax p) + rh (title_ax p) < 1 /\
  ry (ax p) * h (figsize g) == 1 # 2 /\
  ry (ax p) + rh (ax p) == ry (title_ax p).
Proof.
  intros H. destruct (layout_inversion _ _ _ _ H) as [_ [Hh [_ [_ [Ep _]]]]].
  cbv zeta. rewrite Ep.
  cbn [add_axes ax title_ax head_ax hist_ax spec_ax ry rh].
  set (ph := h (figsize g)) in *. unfold mih in Hh.
  assert (Hpos : 0 < ph) by qlra.
  assert (Hnz : ~ ph == 0) by qlra.
  assert (Hinv : 0 < / ph) by (apply Qinv_lt_0_compat; exact Hpos).
  assert (Hinv10 : / ph <= 1 # 10).
  { setoid_replace (/ ph) with (1 / ph) by (field; exact Hnz).
    apply Qle_shift_div_r; [exact Hpos | qlra]. }
  unfold mb, mt, fhh, m, Qdiv.
  split; [|split; [|split; [|split; [|split; [|split]]]]].
  - qlra.
  - ring.
  - setoid_replace ((ph - (1 # 2) - 5) * / ph) with (1 - (11 # 2) * / ph)
      by (field; exact Hnz).
    qlra.
  - field. exact Hnz.
  - setoid_replace (/ (2 * ph)) with ((1 # 2) * / ph) by (field; exact Hnz). qlra.
  - field. exact Hnz.
  - field. exact Hnz.
Qed.

Lemma panel_stacking_witness :
  exists g,
    layout 100 [0; 2000] sample_config = OK g /\
    let p := panels g in
    0 < ry (spec_ax p) /\
    ry (spec_ax p) + rh (spec_ax p) + (1 # 20) == ry (hist_ax p) /\
    ry (hist_ax p) + rh (hist_ax p) < ry (head_ax p) /\
    ry (head_ax p) + rh (head_ax p) == ry (title_ax p) /\
    ry (title_ax p) + rh (title_ax p) < 1 /\
    ry (ax p) * h (figsize g) == 1 # 2 /\
    ry (ax p) + rh (ax p) == ry (title_ax p).
Proof.
  eexists. split; [vm_compute; reflexivity|].
  apply (panel_stacking 100 [0; 2000] sample_config).
  vm_compute. reflexivity.
Defined.

(** X19.  For a positive [tpi] every layout that is returned has a page of
    at least 8.5 by 10 inches, and the seismic panel lies inside the page,
    left of the side-label column: its left edge is 1 in from the page
    edge, and its right edge is before the start of the side label, which
    is itself inside the page. *)
Theorem seismic_panel_inside_page (ntraces : nat) (tbase : list Q) (cfg : config)
  (g : geometry) :
  0 < tpi cfg ->
  layout ntraces tbase cfg = OK g ->
  let p := panels g in
  17 # 2 <= w (figsize g) /\
  10 <= h (figsize g) /\
  0 < rx (ax p) /\
  rx (ax p) * w (figsize g) == 1 /\
  0 <= rw (ax p) /\
  rx (ax p) + rw (ax p) < ssl (figsize g) /\
  ssl (figsize g) < 1 /\
  0 < ry (ax p) /\
  ry (ax p) + rh (ax p) < 1.
Proof.
  intros Ht H.
  destruct (layout_inversion _ _ _ _ H) as [Hw [Hh [Ew [Es [Ep [_ Esw]]]]]].
  destruct (positive_tpi_no_fault ntraces cfg Ht) as [_ Hpos].
  rewrite <- Esw in Hpos.
  cbv zeta. rewrite Ep. cbn [add_axes ax rx ry rw rh]. rewrite Es.
  set (sw := wsd (size g)) in *. set (pw := w (figsize g)) in *.
  set (ph := h (figsize g)) in *. unfold mih in Hh.
  assert (Hpw : 17 # 2 <= pw) by qlra.
  assert (Hpw0 : 0 < pw) by qlra.
  assert (Hph0 : 0 < ph) by qlra.
  assert (Ipw : 0 < / pw) by (apply Qinv_lt_0_compat; exact Hpw0).
  assert (Iph : 0 < / ph) by (apply Qinv_lt_0_compat; exact Hph0).
  assert (Isw : 0 <= sw * / pw) by (apply Qmult_le_0_compat; qlra).
  assert (One : pw * / pw == 1) by (field; qlra).
  assert (Eone : sw * / pw == 1 - (17 # 2) * / pw).
  { setoid_replace sw with (pw - (17 # 2)) by qlra. field. qlra. }
  unfold ml, mm, mr, mb, mt, m, Qdiv.
  split; [exact Hpw|]. split; [exact Hh|].
  split; [qlra|]. split; [field; qlra|]. split; [exact Isw|].
  split; [|split; [|split]].
  - setoid_replace ((2 * (1 # 2) + sw + 2 * (1 # 2) * / 2) * / pw)
      with (2 * (1 # 2) * / pw + sw * / pw + (1 # 2) * / pw) by (field; qlra).
    qlra.
  - setoid_replace ((2 * (1 # 2) + sw + 2 * (1 # 2) * / 2) * / pw)
      with ((3 # 2) * / pw + sw * / pw) by (field; qlra).
    qlra.
  - qlra.
  - setoid_replace ((1 # 2) * / ph + (ph - (1 # 2) - (1 # 2)) * / ph)
      with (1 - (1 # 2) * / ph) by (field; qlra).
    qlra.
Qed.

Lemma seismic_panel_inside_page_witness :
  exists g,
    layout 100 [0; 2000] sample_config = OK g /\
    let p := panels g in
    17 # 2 <= w (figsize g) /\
    10 <= h (figsize g) /\
    0 < rx (ax p) /\
    rx (ax p) * w (figsize g) == 1 /\
    0 <= rw (ax p) /\
    rx (ax p) + rw (ax p) < ssl (figsize g) /\
    ssl (figsize g) < 1 /\
    0 < ry (ax p) /\
    ry (ax p) + rh (ax p) < 1.
Proof.
  eexists. split; [vm_compute; reflexivity|].
  apply (seismic_panel_inside_page 100 [0; 2000] sample_config).
  - reflexivity.
  - vm_compute. reflexivity.
Defined.

(** ** [plot_header] *)

Lemma firstn_add_skipn {A : Type} (a c : nat) (l : list A) :
  firstn (a + c) l = firstn a l ++ firstn c (skipn a l).
Proof.
  revert l. induction a as [|a IH]; intros l; [reflexivity|].
  destruct l as [|x t]; cbn [Nat.add firstn skipn app].
  - now rewrite firstn_nil.
  - now rewrite IH.
Qed.

Lemma cards_concat {A : Type} (s : list A) (c m : nat) :
  concat (map (fun k => firstn c (skipn (k * c) s)) (seq 0 m))
  = firstn (m * c) s.
Proof.
  induction m as [|m IH]; [reflexivity|].
  rewrite seq_S, map_app, concat_app, IH. cbn [map concat Nat.add].
  rewrite app_nil_r. cbn [Nat.mul].
  rewrite (Nat.add_comm c (m * c)). symmetry. apply firstn_add_skipn.
Qed.

Lemma eblist_cards (s : list ascii) :
  eblist s = map (fun k => firstn 80 (skipn (k * 80) s)) (seq 0 40).
Proof.
  unfold eblist, range_step.
  change ((3200 + 80 - 1) / 80)%nat with 40%nat.
  rewrite map_map. apply map_ext. intros k. unfold py_slice.
  f_equal. lia.
Qed.

Lemma combine_with_map {A B : Type} (g : A -> B) (l : list A) :
  combine l (map g l) = map (fun k => (k, g k)) l.
Proof. induction l as [|a l IH]; cbn; [reflexivity | now rewrite IH]. Qed.

(** X20.  [plot_header] always writes 40 lines, whatever the length of
    the header: line [i] is written at abscissa 1 and ordinate
    [39 - 0.95 * i], inside the [0, 40] axis, and shows characters
    [80 * i + 4] up to [80 * i + 80] of the header, at most 76
    characters. *)
Theorem plot_header_lines (s : list ascii) :
  length (plot_header s) = 40%nat /\
  forall i d, (i < 40)%nat ->
    let t := nth i (plot_header s) d in
    text_x t = 1 /\
    text_y t == 39 - (95 # 100) * inject_Z (Z.of_nat i) /\
    0 < text_y t /\ text_y t < 40 /\
    text_s t = py_slice s (80 * i + 4) (80 * i + 80) /\
    (length (text_s t) <= 76)%nat.
Proof.
  unfold plot_header. rewrite (eblist_cards s).
  assert (El : length (map (fun k => firstn 80 (skipn (k * 80) s)) (seq 0 40))
               = 40%nat) by (now rewrite length_map, length_seq).
  rewrite El, combine_with_map. cbv zeta.
  split; [now rewrite !length_map, length_seq|].
  intros i d Hi. cbv zeta.
  set (mk := fun k : nat =>
    mkText 1 (40 - inject_Z (Z.of_nat k) * (95 # 100) - 1)
           (skipn 4 (firstn 80 (skipn (k * 80) s)))).
  rewrite (nth_indep _ d (mk 0%nat)) by (now rewrite !length_map, length_seq).
  rewrite map_map. change (nth i (map _ (seq 0 40)) (mk 0%nat))
    with (nth i (map mk (seq 0 40)) (mk 0%nat)).
  rewrite (map_nth mk), seq_nth by exact Hi. cbn [Nat.add mk text_x text_y text_s].
  assert (Hz : 0 <= inject_Z (Z.of_nat i) /\ inject_Z (Z.of_nat i) <= 39).
  { split.
    - change 0 with (inject_Z 0). rewrite <- Zle_Qle. lia.
    - change 39 with (inject_Z 39). rewrite <- Zle_Qle. lia. }
  assert (Es : skipn 4 (firstn 80 (skipn (i * 80) s))
               = py_slice s (80 * i + 4) (80 * i + 80)).
  { unfold py_slice.
    replace (80 * i + 80 - (80 * i + 4))%nat with 76%nat by lia.
    change 80%nat with (4 + 76)%nat at 1.
    rewrite <- firstn_skipn_comm, skipn_skipn. f_equal. f_equal. lia. }
  split; [reflexivity|]. split; [ring|]. split; [qlra|]. split; [qlra|].
  split; [exact Es|].
  rewrite Es. unfold py_slice. rewrite length_firstn. lia.
Qed.

Lemma plot_header_lines_witness :
  length (plot_header (repeat "C"%char 3200)) = 40%nat /\
  forall i d, (i < 40)%nat ->
    let t := nth i (plot_header (repeat "C"%char 3200)) d in
    text_x t = 1 /\
    text_y t == 39 - (95 # 100) * inject_Z (Z.of_nat i) /\
    0 < text_y t /\ text_y t < 40 /\
    text_s t = py_slice (repeat "C"%char 3200) (80 * i + 4) (80 * i + 80) /\
    (length (text_s t) <= 76)%nat.
Proof.
  apply (plot_header_lines (repeat "C"%char 3200)).
Defined.

(** X21.  The 40 card images are consecutive pieces of the header of at
    most 80 characters: put together they give back its first 3200
    characters, hence the whole header when it is no longer than that; and
    every card has exactly 80 characters when the header has at least
    3200. *)
Theorem header_cards_round_trip (s : list ascii) :
  concat (eblist s) = firstn 3200 s /\
  ((length s <= 3200)%nat -> concat (eblist s) = s) /\
  Forall (fun card => (length card <= 80)%nat) (eblist s) /\
  ((3200 <= length s)%nat ->
     Forall (fun card => length card = 80%nat) (eblist s)).
Proof.
  rewrite (eblist_cards s), (cards_concat s 80 40).
  change (40 * 80)%nat with 3200%nat.
  split; [reflexivity|]. split; [intros H; now apply firstn_all2|]. split.
  - apply Forall_forall. intros card Hc.
    apply in_map_iff in Hc. destruct Hc as [k [<- _]].
    rewrite length_firstn. lia.
  - intros Hlen. apply Forall_forall. intros card Hc.
    apply in_map_iff in Hc. destruct Hc as [k [<- Hk]]. apply in_seq in Hk.
    rewrite length_firstn, length_skipn. lia.
Qed.

Lemma header_cards_round_trip_witness :
  concat (eblist (repeat "C"%char 100)) = firstn 3200 (repeat "C"%char 100) /\
  ((length (repeat "C"%char 100) <= 3200)%nat ->
     concat (eblist (repeat "C"%char 100)) = repeat "C"%char 100) /\
  Forall (fun card => (length card <= 80)%nat) (eblist (repeat "C"%char 100)) /\
  ((3200 <= length (repeat "C"%char 100))%nat ->
     Forall (fun card => length card = 80%nat) (eblist (repeat "C"%char 100))).
Proof.
  apply (header_cards_round_trip (repeat "C"%char 100)).
Defined.

Lemma wigplot_outcome_witness :
  ((0 <= 98 /\ 98 <= 100) /\ 2%Z <> 0%Z ->
     exists ws,
       wigplot ten_traces [0; 1; 2] 10 2 98 1 = OK ws /\
       Forall (fun wg => length (line_x wg) = length (line_y wg) /\
                         length (fill_x1 wg) = length (fill_y wg)) ws) /\
  (~ ((0 <= 98 /\ 98 <= 100) /\ 2%Z <> 0%Z) ->
     wigplot ten_traces [0; 1; 2] 10 2 98 1 = Raise ValueError).
Proof.
  apply (wigplot_outcome ten_traces [0; 1; 2] 10 2 98 1).
  - vm_compute. discriminate.
  - repeat constructor.
Defined.

(** ** Early faults of [main] *)

(** X22.  [main] faults before any data is read into the container: on an
    empty section with [UnboundLocalError]; when the last trace announces
    zero samples (at a non-zero interval) with the [ValueError] of
    [np.amax] on the empty time base; and, for a non-empty time base, when
    [tpi] is zero with [ZeroDivisionError], whatever the sample arrays
    hold. *)
Theorem main_early_faults (init : list trace) (tr : trace) (cfg : config) :
  let n := number_of_samples_in_this_trace (header tr) in
  let d := sample_interval_in_ms_for_this_trace (header tr) in
  ~ d == 0 ->
  main [] cfg = Raise UnboundLocalError /\
  (n = 0%nat -> main (init ++ [tr]) cfg = Raise ValueError) /\
  ((1 <= n)%nat -> tpi cfg == 0 ->
     main (init ++ [tr]) cfg = Raise ZeroDivisionError).
Proof.
  intros n d Hd. split; [reflexivity|].
  pose proof (time_base_last init tr Hd) as Htb. fold n d in Htb.
  split.
  - intros En. unfold main. rewrite Htb, En. reflexivity.
  - intros Hn Ht. unfold main. rewrite Htb. cbn [bind].
    destruct (amax_nonempty
                (map (fun t => (1 # 1000) * t)
                     (map (fun i => inject_Z (Z.of_nat i) * d) (seq 0 n))))
      as [tend Hmax].
    { intros E. apply (f_equal (@length Q)) in E.
      rewrite !length_map, length_seq in E. cbn in E. lia. }
    rewrite Hmax. cbn [bind]. unfold seismic_dims.
    rewrite (truediv_zero _ _ Ht). reflexivity.
Qed.

Lemma main_early_faults_witness :
  let init := [sample_trace 4 1000 [1; 2; 3; 4]] in
  let tr := sample_trace 4 1000 [5; 6] in
  let cfg := mkConfig 0 2 1 1 10 in
  main [] cfg = Raise UnboundLocalError /\
  (4%nat = 0%nat -> main (init ++ [tr]) cfg = Raise ValueError) /\
  ((1 <= 4)%nat -> 0 == 0 ->
     main (init ++ [tr]) cfg = Raise ZeroDivisionError).
Proof.
  apply (main_early_faults [sample_trace 4 1000 [1; 2; 3; 4]]
                           (sample_trace 4 1000 [5; 6]) (mkConfig 0 2 1 1 10)).
  simpl. discriminate.
Defined.

(** ** The normalization used by [main], sample by sample *)

(** The columns of a built data container, trace by trace. *)
Lemma build_data_columns (n : nat) (traces : list trace) (data : list (list Q)) :
  build_data n traces = OK data ->
  Forall2 (fun tr col =>
             col = trace_data tr \/
             exists x, trace_data tr = [x] /\ col = repeat x n) traces data.
Proof.
  revert data. induction traces as [|t rest IH]; intros data H; cbn [build_data] in H.
  - injection H as <-. constructor.
  - apply bind_OK in H. destruct H as [c [Hc H]].
    apply bind_OK in H. destruct H as [cs [Hcs H]].
    injection H as <-.
    destruct (assign_column_shape _ _ _ Hc) as [_ Sc].
    constructor; [exact Sc | apply IH; exact Hcs].
Qed.

(** The wiggles of [wigplot] over all the columns, for a stride of either
    sign, as one list. *)
Lemma wigplot_form (data : list (list Q)) (tbase : list Q) (skip : Z)
  (perc gain : Q) (ws : list wiggle) :
  wigplot data tbase (length data) skip perc gain = OK ws ->
  let n := length data in
  let k := Z.to_nat (Z.abs skip) in
  let count := ((n + k - 1) / k)%nat in
  let column := fun j => if (0 <? skip)%Z then (j * k)%nat else (n - 1 - j * k)%nat in
  exists sc,
    Np.percentile (Np.ravel data) perc = OK sc /\
    (forall j, (j < count)%nat -> (column j < n)%nat) /\
    ws = map (fun j =>
                mkWiggle (normalized gain sc (Z.of_nat (column j))
                                     (nth (column j) data []))
                         tbase tbase
                         (normalized gain sc (Z.of_nat (column j))
                                     (nth (column j) data []))
                         (Z.of_nat (column j)))
             (seq 0 count).
Proof.
  intros H n k count column. unfold wigplot in H.
  apply bind_OK in H. destruct H as [sc [Hsc H]].
  apply bind_OK in H. destruct H as [wigdata [Hwd H]].
  apply bind_OK in H. destruct H as [xpos [Hxp H]].
  injection H as Hws.
  unfold Np.slice_step in Hwd, Hxp.
  destruct (skip =? 0)%Z eqn:E0; [discriminate|]. apply Z.eqb_neq in E0.
  assert (Hk : (1 <= k)%nat) by (unfold k; lia).
  assert (Hcol : forall j, (j < count)%nat -> (column j < n)%nat).
  { intros j Hj. pose proof (div_ceil_bound n k j Hk Hj) as Hb.
    unfold column. destruct (0 <? skip)%Z; lia. }
  assert (Hpairs : combine xpos wigdata
                   = map (fun j => (Z.of_nat (column j), nth (column j) data []))
                         (seq 0 count)).
  { unfold column. destruct (0 <? skip)%Z eqn:Ep.
    - apply Z.ltb_lt in Ep.
      replace (Z.to_nat skip) with k in Hwd, Hxp by (unfold k; lia).
      injection Hwd as <-. injection Hxp as <-.
      rewrite stride_arange by exact Hk.
      rewrite (stride_as_map [] data k) by exact Hk.
      apply combine_map_same.
    - apply Z.ltb_ge in Ep.
      replace (Z.to_nat (- skip)) with k in Hwd, Hxp by (unfold k; lia).
      injection Hwd as <-. injection Hxp as <-.
      rewrite (stride_rev_as_map 0%Z (Np.arange n)) by exact Hk.
      rewrite (stride_rev_as_map [] data k) by exact Hk.
      rewrite arange_length. fold n count.
      rewrite <- combine_map_same. f_equal.
      apply map_ext_in. intros j Hj. apply in_seq in Hj.
      apply arange_nth.
      pose proof (div_ceil_bound n k j Hk) as Hb. lia. }
  rewrite Hpairs, map_map in Hws.
  exists sc. split; [exact Hsc|]. split; [exact Hcol|].
  rewrite <- Hws. reflexivity.
Qed.

(** One abscissa of a wiggle: [gain * a / sc + x]. *)
Lemma normalized_sample (gain sc c : Q) (x : Z) (a : Q) :
  let v := Np.add (Np.div (Np.Fin (gain * a)) (Np.Fin sc)) (Np.Fin (inject_Z x)) in
  (~ sc == 0 -> exists q, v = Np.Fin q /\ q == gain * a / sc + inject_Z x) /\
  (sc == 0 -> forall q, v <> Np.Fin q) /\
  (~ c == 0 -> ~ sc == c -> ~ gain * a == 0 ->
     ~ Np.eqf v (Np.Fin (gain * a / c + inject_Z x))).
Proof.
  cbv zeta.
  assert (Hz : sc == 0 ->
               forall q, Np.add (Np.div (Np.Fin (gain * a)) (Np.Fin sc))
                                (Np.Fin (inject_Z x)) <> Np.Fin q).
  { intros Es q. unfold Np.div. rewrite (Qeq_bool_true _ _ Es).
    destruct (Qeq_bool (gain * a) 0); [cbn; discriminate|].
    destruct (Qle_bool 0 (gain * a)); cbn; discriminate. }
  assert (Hf : ~ sc == 0 ->
               Np.add (Np.div (Np.Fin (gain * a)) (Np.Fin sc)) (Np.Fin (inject_Z x))
               = Np.Fin (gain * a / sc + inject_Z x)).
  { intros Es. unfold Np.div. rewrite (Qeq_bool_false _ _ Es). reflexivity. }
  split; [|split].
  - intros Es. eexists. split; [apply Hf; exact Es | reflexivity].
  - exact Hz.
  - intros Hc Hd Hg. destruct (Qeq_dec sc 0) as [Es|Es].
    + specialize (Hz Es).
      destruct (Np.add (Np.div (Np.Fin (gain * a)) (Np.Fin sc))
                       (Np.Fin (inject_Z x))) as [q| | |];
        cbn [Np.eqf]; try tauto.
      exfalso. exact (Hz q eq_refl).
    + rewrite (Hf Es). cbn [Np.eqf]. intros E. apply Hd.
      assert (E1 : gain * a / sc == gain * a / c) by qlra.
      assert (E2 : gain * a * c == gain * a * sc).
      { setoid_replace (gain * a * c) with (gain * a / sc * (sc * c))
          by (field; exact Es).
        rewrite E1. field. exact Hc. }
      apply (Qmult_inj_l sc c (gain * a) Hg). symmetry. exact E2.
Qed.

(** C10.  In a run of [main] that completes, the data matrix holds the
    sample arrays of the traces, the reported clip value is the 99th
    percentile of the signed data (and is positive), while [wigplot] is
    called with its own default [perc = 98]: [main] passes neither the clip
    value nor a percentile.  One wiggle is drawn per selected column, and
    each sample [a] of it is drawn at [gain * a / sc + x] with [sc] the
    98th percentile of the signed data, which is at most the clip value.
    Whenever the two percentiles differ, every non-zero sample is drawn
    away from where the reported clip value would have put it. *)
Theorem main_wiggle_normalization (traces : list trace) (cfg : config) (r : run) :
  main traces cfg = OK r ->
  let data := run_data r in
  let n := length traces in
  let k := Z.to_nat (Z.abs (skip cfg)) in
  let count := ((n + k - 1) / k)%nat in
  let column :=
    fun j => if (0 <? skip cfg)%Z then (j * k)%nat else (n - 1 - j * k)%nat in
  exists sc c,
    build_data (run_nsamples r) traces = OK data /\
    Forall2 (fun tr col =>
               col = trace_data tr \/
               exists x, trace_data tr = [x] /\ col = repeat x (run_nsamples r))
            traces data /\
    Np.percentile (Np.ravel data) 98 = OK (Np.Fin sc) /\
    Np.percentile (Np.ravel data) 99 = OK (Np.Fin c) /\
    clip_val r = Np.Fin c /\
    sc <= c /\ 0 < c /\
    length (run_wiggles r) = count /\
    forall j d, (j < count)%nat ->
      let wg := nth j (run_wiggles r) d in
      let x := Z.of_nat (column j) in
      let trace := nth (column j) data [] in
      (column j < n)%nat /\
      fill_x2 wg = x /\
      line_y wg = run_tbase r /\ fill_y wg = run_tbase r /\
      fill_x1 wg = line_x wg /\
      length (line_x wg) = length trace /\
      forall i a, nth_error trace i = Some a ->
        exists v,
          nth_error (line_x wg) i = Some v /\
          (~ sc == 0 ->
             exists q, v = Np.Fin q /\ q == gain cfg * a / sc + inject_Z x) /\
          (sc == 0 -> forall q, v <> Np.Fin q) /\
          (~ sc == c -> ~ gain cfg * a == 0 ->
             ~ Np.eqf v (Np.Fin (gain cfg * a / c + inject_Z x))).
Proof.
  intros H data n k count column.
  destruct (main_inversion traces cfg r H) as [Hclip Hw].
  destruct (main_steps traces cfg r H)
    as [_ [_ [Hnt [_ [_ [_ [Hdata [_ [Hh _]]]]]]]]].
  fold data in Hclip, Hw, Hdata, Hh.
  destruct (build_data_rect _ _ _ Hdata) as [Hlen _].
  assert (Hne : Np.ravel data <> []).
  { intros E. unfold plot_histogram, plot_histogram_with, largest in Hh.
    rewrite E in Hh. discriminate. }
  destruct (percentile_monotone (Np.ravel data) 98 99 Hne)
    as [sc [c [Hsc [Hc Hle]]]]; try discriminate.
  destruct (clip_value_between data Hne)
    as [c' [ma [mi [Hc' [Hma [Hmi [B0 B1]]]]]]].
  unfold clip_value in Hc', Hclip. rewrite Hc in Hc'. injection Hc' as <-.
  rewrite Hc in Hclip. injection Hclip as Hcv.
  assert (Hlg : largest data = OK (Py.max ma (Qabs mi))).
  { unfold largest. rewrite Hma, Hmi. reflexivity. }
  assert (Hpos : 0 < c).
  { destruct (Q_dec c 0) as [[Hneg|Hp]|Ec]; [| exact Hp |].
    - rewrite (plot_histogram_negative data ma mi c Hma Hmi Hc B0 B1 Hneg) in Hh.
      discriminate.
    - rewrite (plot_histogram_zero_clip data c _ Hc Hlg Ec) in Hh. discriminate. }
  rewrite Hnt, <- Hlen in Hw. unfold wigplot_default_perc in Hw.
  destruct (wigplot_form data (run_tbase r) (skip cfg) 98 (gain cfg) _ Hw)
    as [sc' [Hsc' [Hcol Hws]]].
  rewrite Hsc in Hsc'. injection Hsc' as <-.
  rewrite Hlen in Hcol, Hws. fold n k count column in Hcol, Hws.
  exists sc, c.
  split; [exact Hdata|].
  split; [apply build_data_columns; exact Hdata|].
  split; [exact Hsc|]. split; [exact Hc|]. split; [symmetry; exact Hcv|].
  split; [exact Hle|]. split; [exact Hpos|].
  rewrite Hws.
  split; [now rewrite length_map, length_seq|].
  intros j d Hj. cbv zeta.
  set (mk := fun j : nat =>
    mkWiggle (normalized (gain cfg) (Np.Fin sc) (Z.of_nat (column j))
                         (nth (column j) data []))
             (run_tbase r) (run_tbase r)
             (normalized (gain cfg) (Np.Fin sc) (Z.of_nat (column j))
                         (nth (column j) data []))
             (Z.of_nat (column j))).
  rewrite (nth_indep _ d (mk 0%nat)) by (now rewrite length_map, length_seq).
  rewrite (map_nth mk), seq_nth by exact Hj.
  cbn [Nat.add mk fill_x2 line_y fill_y fill_x1 line_x].
  split; [apply Hcol; exact Hj|].
  split; [reflexivity|]. split; [reflexivity|]. split; [reflexivity|].
  split; [reflexivity|].
  split; [unfold normalized; apply length_map|].
  intros i a Ha. unfold normalized at 1.
  rewrite nth_error_map, Ha. cbn [option_map].
  eexists. split; [reflexivity|].
  destruct (normalized_sample (gain cfg) sc c (Z.of_nat (column j)) a)
    as [N1 [N2 N3]].
  split; [exact N1|]. split; [exact N2|].
  apply N3. qlra.
Qed.

Lemma main_wiggle_normalization_witness :
  exists r,
    main two_traces sample_config = OK r /\
    let data := run_data r in
    let n := length two_traces in
    let k := Z.to_nat (Z.abs (skip sample_config)) in
    let count := ((n + k - 1) / k)%nat in
    let column :=
      fun j => if (0 <? skip sample_config)%Z
               then (j * k)%nat else (n - 1 - j * k)%nat in
    exists sc c,
      build_data (run_nsamples r) two_traces = OK data /\
      Forall2 (fun tr col =>
                 col = trace_data tr \/
                 exists x, trace_data tr = [x] /\ col = repeat x (run_nsamples r))
              two_traces data /\
      Np.percentile (Np.ravel data) 98 = OK (Np.Fin sc) /\
      Np.percentile (Np.ravel data) 99 = OK (Np.Fin c) /\
      clip_val r = Np.Fin c /\
      sc <= c /\ 0 < c /\
      length (run_wiggles r) = count /\
      forall j d, (j < count)%nat ->
        let wg := nth j (run_wiggles r) d in
        let x := Z.of_nat (column j) in
        let trace := nth (column j) data [] in
        (column j < n)%nat /\
        fill_x2 wg = x /\
        line_y wg = run_tbase r /\ fill_y wg = run_tbase r /\
        fill_x1 wg = line_x wg /\
        length (line_x wg) = length trace /\
        forall i a, nth_error trace i = Some a ->
          exists v,
            nth_error (line_x wg) i = Some v /\
            (~ sc == 0 ->
               exists q, v = Np.Fin q /\
                         q == gain sample_config * a / sc + inject_Z x) /\
            (sc == 0 -> forall q, v <> Np.Fin q) /\
            (~ sc == c -> ~ gain sample_config * a == 0 ->
               ~ Np.eqf v (Np.Fin (gain sample_config * a / c + inject_Z x))).
Proof.
  assert (H : exists r, main two_traces sample_config = OK r)
    by (eexists; reflexivity).
  destruct H as [r H]. exists r. split; [exact H|].
  apply (main_wiggle_normalization two_traces sample_config r H).
Defined.
